(** * SSCMA Micro Core for Arduino: a shallow embedding of [SSCMA_Micro_Core.cpp]

    The development follows the translation unit top to bottom:
    - the value types of [SSCMA_Micro_Core.h] ([InvokeConfig], [Config], [Box],
      [Class], [Point], [Keypoints], [Perf], [Frame], [Expected]);
    - the types of the inference engine and of the camera driver that the
      wrapper reads and writes ([ma_img_t], [ma_point_t], [camera_fb_t], ...);
    - the object state ([SSCMAMicroCore]) together with the file-level statics
      ([ma_engine], [ma_model], [models]);
    - [Frame::fromCameraFrame], [SSCMAMicroCore::begin] and
      [SSCMAMicroCore::invoke] as state-passing functions that also return the
      trace of calls made to the engine and to the registered callbacks.

    The build modelled is the one for the ESP32-S3
    ([MA_PORTING_ESPRESSIF_ESP32S3] defined), the only one in which [begin]
    can succeed. *)

From Stdlib Require Import ZArith List Bool String Lia Permutation Sorted.
From Stdlib Require Import DecimalString.
From Stdlib Require Import Floats.SpecFloat.
Import ListNotations.
Open Scope Z_scope.

(** ** Scalars *)

(** [float]: IEEE-754 values, with the comparison of the standard (every
    comparison with a NaN is false). *)
Definition float : Type := spec_float.

(** The literal [0.f]. *)
Definition float_zero : float := S754_zero false.

Definition is_nan (f : float) : bool :=
  match f with
  | S754_nan => true
  | _ => false
  end.

(** [a < b] and [a > b] on [float]. *)
Definition float_lt (a b : float) : bool := SFltb a b.
Definition float_gt (a b : float) : bool := SFltb b a.
(** [a >= b] *)
Definition float_ge (a b : float) : bool := SFleb b a.

(** Implicit conversion [float -> int]: the fractional part is discarded.
    (The conversion of an infinity, of a NaN or of a value outside the range
    of [int] is undefined in C++; the value given here is arbitrary.) *)
Definition float_to_int (f : float) : Z :=
  match f with
  | S754_finite s m e =>
      let mag := match e with
                 | Zneg k => Z.shiftr (Zpos m) (Zpos k)
                 | _ => Z.shiftl (Zpos m) e
                 end in
      if s then - mag else mag
  | _ => 0
  end.

(** Implicit conversion [int -> float]: rounding to the nearest binary32. *)
Definition int_to_float (n : Z) : float := binary_normalize 24 128 n 0 false.

(** Conversions to the unsigned types of the [Frame] fields. *)
Definition uint16_t (n : Z) : Z := n mod 2 ^ 16.
Definition uint32_t (n : Z) : Z := n mod 2 ^ 32.

(** Pointers are addresses; [nullptr] is address 0. *)
Definition ptr : Type := Z.
Definition nullptr : ptr := 0.

(** [std::to_string(int)] *)
Definition std_to_string (n : Z) : string := NilZero.string_of_int (Z.to_int n).

(** ** Types of [SSCMA_Micro_Core.h] *)

Record InvokeConfig := mkInvokeConfig {
  top_k : Z;
  score_threshold : float;
  nms_threshold : float
}.

(** [invoke_config] is a [const InvokeConfig*]: the wrapper keeps the address,
    the structure stays in the caller's memory. *)
Record Config := mkConfig {
  model_id : Z;
  algorithm_id : Z;
  invoke_config : ptr
}.

(** The caller's memory, as far as the wrapper reads it: the [InvokeConfig]
    found at an address. *)
Definition Memory : Type := ptr -> InvokeConfig.

Module Box.
Record t := mk {
  x : float;
  y : float;
  w : float;
  h : float;
  score : float;
  target : Z
}.
End Box.

(** The fields of [Class] are declared in the order [target], [score]; the
    constructor [Class.mk] takes them in that order, as a braced initialiser
    does. *)
Module Class.
Record t := mk {
  target : Z;
  score : float
}.
End Class.

Module Point.
Record t := mk {
  x : float;
  y : float;
  z : float;
  score : float;
  target : Z
}.
End Point.

Module Keypoints.
Record t := mk {
  box : Box.t;
  points : list Point.t
}.
End Keypoints.

Module Perf.
Record t := mk {
  preprocess : Z;
  inference : Z;
  postprocess : Z
}.
End Perf.

(** [enum PixelFormat].  A C++ enumeration object can hold any value of its
    underlying range, so the format is kept as its integer value. *)
Definition PixelFormat : Type := Z.
Definition kUNKNOWN : PixelFormat := 0.
Definition kRGB888 : PixelFormat := 1.
Definition kRGB565 : PixelFormat := 2.
Definition kGRAY8 : PixelFormat := 3.
Definition kJPEG : PixelFormat := 4.

Record timeval := mkTimeval {
  tv_sec : Z;
  tv_usec : Z
}.

Module Frame.
Record t := mk {
  format : PixelFormat;
  width : Z;        (* uint16_t *)
  height : Z;       (* uint16_t *)
  orientation : Z;  (* uint16_t *)
  timestamp : timeval;
  size : Z;         (* uint32_t *)
  data : ptr
}.
End Frame.

Module Expected.
Record t := mk {
  success : bool;
  message : string
}.
End Expected.

(** ** Types of the camera driver ([esp_camera.h])

    [pixformat_t] and [camera_fb_t] are declared by the driver; the
    dimensions and the length of a frame buffer are [size_t] there, 32 bits
    wide on the ESP32. *)
Inductive pixformat_t :=
| PIXFORMAT_RGB565
| PIXFORMAT_YUV422
| PIXFORMAT_YUV420
| PIXFORMAT_GRAYSCALE
| PIXFORMAT_JPEG
| PIXFORMAT_RGB888
| PIXFORMAT_RAW
| PIXFORMAT_RGB444
| PIXFORMAT_RGB555.

Module camera_fb_t.
Record t := mk {
  buf : ptr;
  len : Z;     (* size_t *)
  width : Z;   (* size_t *)
  height : Z;  (* size_t *)
  format : pixformat_t;
  timestamp : timeval
}.
End camera_fb_t.

(** The values a [size_t] field can hold. *)
Definition size_t_range (n : Z) : Prop := 0 <= n < 2 ^ 32.

Definition camera_fb_well_typed (fb : camera_fb_t.t) : Prop :=
  size_t_range (camera_fb_t.len fb) /\
  size_t_range (camera_fb_t.width fb) /\
  size_t_range (camera_fb_t.height fb).

(** ** Types of the inference engine ([ma_core.h])

    Only what the wrapper touches is represented. *)
Inductive ma_pixel_format_t :=
| MA_PIXEL_FORMAT_RGB888
| MA_PIXEL_FORMAT_RGB565
| MA_PIXEL_FORMAT_GRAYSCALE
| MA_PIXEL_FORMAT_JPEG.

Inductive ma_pixel_rotate_t :=
| MA_PIXEL_ROTATE_0
| MA_PIXEL_ROTATE_90
| MA_PIXEL_ROTATE_180
| MA_PIXEL_ROTATE_270.

(** [ma_img_t], [ma_perf_t] and the result structures are declared by the
    engine.  Their integer fields are taken with the types of the wrapper's
    members they are copied to or from, so that these copies convert
    nothing; the timestamp of an image holds the value of the expression
    assigned to it. *)
Module ma_img_t.
Record t := mk {
  width : Z;
  height : Z;
  format : ma_pixel_format_t;
  rotate : ma_pixel_rotate_t;
  timestamp : Z;
  size : Z;
  data : ptr
}.
End ma_img_t.

Inductive ma_model_type_t :=
| MA_MODEL_TYPE_UNDEFINED
| MA_MODEL_TYPE_FOMO
| MA_MODEL_TYPE_PFLD
| MA_MODEL_TYPE_YOLOV5
| MA_MODEL_TYPE_IMCLS
| MA_MODEL_TYPE_YOLOV8_POSE
| MA_MODEL_TYPE_YOLOV8
| MA_MODEL_TYPE_NVIDIA_DET
| MA_MODEL_TYPE_YOLO_WORLD.

Inductive ma_model_cfg_opt_t :=
| MA_MODEL_CFG_OPT_THRESHOLD
| MA_MODEL_CFG_OPT_NMS.

Module ma_point_t.
Record t := mk {
  x : float;
  y : float;
  score : float;
  target : Z
}.
End ma_point_t.

Module ma_class_t.
Record t := mk {
  score : float;
  target : Z
}.
End ma_class_t.

Module ma_bbox_t.
Record t := mk {
  x : float;
  y : float;
  w : float;
  h : float;
  score : float;
  target : Z
}.
End ma_bbox_t.

Module ma_pt3f_t.
Record t := mk {
  x : float;
  y : float;
  z : float
}.
End ma_pt3f_t.

Module ma_keypoint3f_t.
Record t := mk {
  box : ma_bbox_t.t;
  pts : list ma_pt3f_t.t
}.
End ma_keypoint3f_t.

Module ma_perf_t.
Record t := mk {
  preprocess : Z;
  inference : Z;
  postprocess : Z
}.
End ma_perf_t.

(** An entry of the static vector [models] built by [begin].  ([name] is the
    base of the mapping for every entry and [size] is never assigned; neither
    is kept.) *)
Module ma_model_t.
Record t := mk {
  id : Z;
  type : ma_model_type_t;
  addr : Z
}.
End ma_model_t.

(** The observable state of an [ma::Model]: its type tag, the two options
    the wrapper sets, the result containers of the four algorithm classes
    ([PointDetector], [Classifier], [Detector], [PoseDetector]) and the
    timings of the last run. *)
Module Model.
Record t := mk {
  type : ma_model_type_t;
  threshold : float;
  nms : float;
  point_results : list ma_point_t.t;        (* std::vector *)
  class_results : list ma_class_t.t;        (* std::forward_list *)
  bbox_results : list ma_bbox_t.t;          (* std::forward_list *)
  keypoint_results : list ma_keypoint3f_t.t; (* std::vector *)
  perf : ma_perf_t.t
}.
End Model.

(** [ma_model->setConfig(opt, value)] *)
Definition setConfig (m : Model.t) (opt : ma_model_cfg_opt_t) (v : float) : Model.t :=
  match opt with
  | MA_MODEL_CFG_OPT_THRESHOLD =>
      Model.mk (Model.type m) v (Model.nms m) (Model.point_results m)
        (Model.class_results m) (Model.bbox_results m)
        (Model.keypoint_results m) (Model.perf m)
  | MA_MODEL_CFG_OPT_NMS =>
      Model.mk (Model.type m) (Model.threshold m) v (Model.point_results m)
        (Model.class_results m) (Model.bbox_results m)
        (Model.keypoint_results m) (Model.perf m)
  end.

Record esp_partition_t := mkPartition {
  address : Z;
  part_size : Z
}.

(** ** The environment

    Everything the translation unit calls but does not define: the engine,
    the flash, the model factory, the model's [run], and [std::sort] (whose
    result is pinned down by the standard only up to the order of equivalent
    elements). *)
Record Env := mkEnv {
  MA_OK : Z;
  ESP_OK : Z;
  (** the integer value of a model type tag *)
  model_type_value : ma_model_type_t -> Z;
  (** [engine.init()] *)
  engine_init : Z;
  (** the partition labelled models found by [esp_partition_find_first] when
      [MA_PORTING_ESPRESSIF_PARTITIONS] is set; otherwise the fixed region
      at [MA_PORTING_MODEL_ADDRESS] *)
  find_partition : option esp_partition_t;
  (** [spi_flash_mmap(...)] *)
  spi_flash_mmap : Z;
  (** the 32-bit word that follows the first one at offset [i] of the
      mapping, converted with [ma_ntohl] *)
  flash_word : Z -> Z;
  (** [ma_engine->load(addr, size)] *)
  engine_load : Z -> Z;
  (** [ma::ModelFactory::create(ma_engine, id)]; [None] is [nullptr] *)
  ModelFactory_create : Z -> option Model.t;
  (** [algorithm->run(&img)]: the return code and the model afterwards *)
  Model_run : Model.t -> ma_img_t.t -> Z * Model.t;
  (** [std::sort(first, last, comp)] *)
  std_sort : forall A : Type, (A -> A -> bool) -> list A -> list A
}.

(** ** The object and the statics *)

(** A registered [std::function] is identified by a number; an empty one is
    [None]. *)
Definition callback : Type := Z.

Record SSCMAMicroCore := mkCore {
  _initialized : bool;
  _config : Config;
  _boxes_callback : option callback;
  _classes_callback : option callback;
  _points_callback : option callback;
  _keypoints_callback : option callback;
  _perf_callback : option callback;
  _boxes : list Box.t;
  _classes : list Class.t;
  _points : list Point.t;
  _keypoints : list Keypoints.t;
  _perf : Perf.t
}.

(** The object together with the statics of the translation unit. *)
Record World := mkWorld {
  this : SSCMAMicroCore;
  ma_engine : bool;                 (* [ma_engine != nullptr] *)
  ma_model : option Model.t;        (* [None] is [nullptr] *)
  models : list ma_model_t.t        (* [static std::vector<ma_model_t> models] *)
}.

(** Calls that leave the translation unit, in the order they are made. *)
Inductive event :=
| EvCreate (id : Z)
| EvSetConfig (opt : ma_model_cfg_opt_t) (v : float)
| EvRun (img : ma_img_t.t)
| EvPointsCallback (cb : callback) (points : list Point.t) (user_context : ptr)
| EvClassesCallback (cb : callback) (classes : list Class.t) (user_context : ptr)
| EvBoxesCallback (cb : callback) (boxes : list Box.t) (user_context : ptr)
| EvKeypointsCallback (cb : callback) (keypoints : list Keypoints.t) (user_context : ptr)
| EvPerfCallback (cb : callback) (perf : Perf.t) (user_context : ptr).

(** Field updates of the object. *)
Definition set_config (c : SSCMAMicroCore) (cfg : Config) : SSCMAMicroCore :=
  mkCore (_initialized c) cfg (_boxes_callback c) (_classes_callback c)
    (_points_callback c) (_keypoints_callback c) (_perf_callback c)
    (_boxes c) (_classes c) (_points c) (_keypoints c) (_perf c).

Definition set_initialized (c : SSCMAMicroCore) (b : bool) : SSCMAMicroCore :=
  mkCore b (_config c) (_boxes_callback c) (_classes_callback c)
    (_points_callback c) (_keypoints_callback c) (_perf_callback c)
    (_boxes c) (_classes c) (_points c) (_keypoints c) (_perf c).

Definition set_boxes (c : SSCMAMicroCore) (l : list Box.t) : SSCMAMicroCore :=
  mkCore (_initialized c) (_config c) (_boxes_callback c) (_classes_callback c)
    (_points_callback c) (_keypoints_callback c) (_perf_callback c)
    l (_classes c) (_points c) (_keypoints c) (_perf c).

Definition set_classes (c : SSCMAMicroCore) (l : list Class.t) : SSCMAMicroCore :=
  mkCore (_initialized c) (_config c) (_boxes_callback c) (_classes_callback c)
    (_points_callback c) (_keypoints_callback c) (_perf_callback c)
    (_boxes c) l (_points c) (_keypoints c) (_perf c).

Definition set_points (c : SSCMAMicroCore) (l : list Point.t) : SSCMAMicroCore :=
  mkCore (_initialized c) (_config c) (_boxes_callback c) (_classes_callback c)
    (_points_callback c) (_keypoints_callback c) (_perf_callback c)
    (_boxes c) (_classes c) l (_keypoints c) (_perf c).

Definition set_keypoints (c : SSCMAMicroCore) (l : list Keypoints.t) : SSCMAMicroCore :=
  mkCore (_initialized c) (_config c) (_boxes_callback c) (_classes_callback c)
    (_points_callback c) (_keypoints_callback c) (_perf_callback c)
    (_boxes c) (_classes c) (_points c) l (_perf c).

Definition set_perf (c : SSCMAMicroCore) (p : Perf.t) : SSCMAMicroCore :=
  mkCore (_initialized c) (_config c) (_boxes_callback c) (_classes_callback c)
    (_points_callback c) (_keypoints_callback c) (_perf_callback c)
    (_boxes c) (_classes c) (_points c) (_keypoints c) p.

(** [_config.invoke_config = config;] *)
Definition set_invoke_config (c : SSCMAMicroCore) (p : ptr) : SSCMAMicroCore :=
  set_config c (mkConfig (model_id (_config c)) (algorithm_id (_config c)) p).

(** The [register...Callback] members. *)
Definition registerBoxesCallback (cb : option callback) (c : SSCMAMicroCore) : SSCMAMicroCore :=
  mkCore (_initialized c) (_config c) cb (_classes_callback c)
    (_points_callback c) (_keypoints_callback c) (_perf_callback c)
    (_boxes c) (_classes c) (_points c) (_keypoints c) (_perf c).

Definition registerClassesCallback (cb : option callback) (c : SSCMAMicroCore) : SSCMAMicroCore :=
  mkCore (_initialized c) (_config c) (_boxes_callback c) cb
    (_points_callback c) (_keypoints_callback c) (_perf_callback c)
    (_boxes c) (_classes c) (_points c) (_keypoints c) (_perf c).

Definition registerPointsCallback (cb : option callback) (c : SSCMAMicroCore) : SSCMAMicroCore :=
  mkCore (_initialized c) (_config c) (_boxes_callback c) (_classes_callback c)
    cb (_keypoints_callback c) (_perf_callback c)
    (_boxes c) (_classes c) (_points c) (_keypoints c) (_perf c).

Definition registerKeypointsCallback (cb : option callback) (c : SSCMAMicroCore) : SSCMAMicroCore :=
  mkCore (_initialized c) (_config c) (_boxes_callback c) (_classes_callback c)
    (_points_callback c) cb (_perf_callback c)
    (_boxes c) (_classes c) (_points c) (_keypoints c) (_perf c).

Definition registerPerfCallback (cb : option callback) (c : SSCMAMicroCore) : SSCMAMicroCore :=
  mkCore (_initialized c) (_config c) (_boxes_callback c) (_classes_callback c)
    (_points_callback c) (_keypoints_callback c) cb
    (_boxes c) (_classes c) (_points c) (_keypoints c) (_perf c).

Definition with_model (w : World) (c : SSCMAMicroCore) (m : Model.t) : World :=
  mkWorld c (ma_engine w) (Some m) (models w).

(** ** [Frame::fromCameraFrame]

    [frame] is [None] for a null pointer.  [f] stands for the local
    [Frame f;], whose members are not initialised by its declaration. *)
Definition fromCameraFrame (f : Frame.t) (frame : option camera_fb_t.t) : Frame.t :=
  match frame with
  | None => f
  | Some fb =>
      if camera_fb_t.buf fb =? nullptr then f
      else
        let format :=
          match camera_fb_t.format fb with
          | PIXFORMAT_RGB888 => kRGB888
          | PIXFORMAT_RGB565 => kRGB565
          | PIXFORMAT_GRAYSCALE => kGRAY8
          | PIXFORMAT_JPEG => kJPEG
          | _ => kUNKNOWN
          end in
        Frame.mk format
          (uint16_t (camera_fb_t.width fb))
          (uint16_t (camera_fb_t.height fb))
          0
          (camera_fb_t.timestamp fb)
          (uint32_t (camera_fb_t.len fb))
          (camera_fb_t.buf fb)
  end.

(** ** [SSCMAMicroCore::begin] *)

Definition failure (msg : string) : Expected.t := Expected.mk false msg.

(** The loop over the mapped partition, [n] iterations from offset [i]:
    every 4096-byte block whose second word is the magic number 'TFL3' gets
    the next identifier and is appended to [models]. *)
Fixpoint scan_models (env : Env) (n : nat) (i : Z) (id : Z)
    (models : list ma_model_t.t) : list ma_model_t.t :=
  match n with
  | O => models
  | S n' =>
      if negb (flash_word env i =? 0x54464C33)
      then scan_models env n' (i + 4096) id models
      else scan_models env n' (i + 4096) (id + 1)
             (models ++ [ma_model_t.mk (id + 1) MA_MODEL_TYPE_UNDEFINED i])
  end.

(** Number of iterations of [for (i = 0; i < size; i += 4096)]. *)
Definition scan_iterations (size : Z) : nat := Z.to_nat ((size + 4095) / 4096).

(** [config.model_id >= 0 ? std::find_if(...) : models.begin()]; [None] is
    [models.end()]. *)
Definition find_model (env : Env) (config : Config)
    (models : list ma_model_t.t) : option ma_model_t.t :=
  if 0 <=? model_id config
  then find (fun model => model_type_value env (ma_model_t.type model) =? model_id config) models
  else hd_error models.

(** The two [setConfig] calls made from an [InvokeConfig]. *)
Definition apply_invoke_config (ic : InvokeConfig) (m : Model.t) : Model.t * list event :=
  (setConfig (setConfig m MA_MODEL_CFG_OPT_THRESHOLD (score_threshold ic))
     MA_MODEL_CFG_OPT_NMS (nms_threshold ic),
   [EvSetConfig MA_MODEL_CFG_OPT_THRESHOLD (score_threshold ic);
    EvSetConfig MA_MODEL_CFG_OPT_NMS (nms_threshold ic)]).

(** The identifier handed to the factory:
    [_config.model_id >= 0 ? _config.model_id : 0]. *)
Definition factory_id (c : SSCMAMicroCore) : Z :=
  if 0 <=? model_id (_config c) then model_id (_config c) else 0.

Definition begin (env : Env) (mem : Memory) (config : Config) (w : World)
    : Expected.t * World * list event :=
  let c := this w in
  if _initialized c then (failure "Already initialized", w, [])
  else if negb (engine_init env =? MA_OK env) then (failure "Engine init failed", w, [])
  else
    let w1 := mkWorld c true (ma_model w) (models w) in
    match find_partition env with
    | None => (failure "No models partition found", w1, [])
    | Some partition =>
        if negb (spi_flash_mmap env =? ESP_OK env)
        then (failure "Failed to map models", w1, [])
        else
          let models := scan_models env (scan_iterations (part_size partition)) 0 0 (models w) in
          let w2 := mkWorld c true (ma_model w) models in
          match find_model env config models with
          | None => (failure "Model not found", w2, [])
          | Some it =>
              if negb (engine_load env (ma_model_t.addr it) =? MA_OK env)
              then (failure "Failed to load model", w2, [])
              else
                let id := factory_id c in
                match ModelFactory_create env id with
                | None =>
                    (failure "Failed to create algorithm",
                     mkWorld c true None models, [EvCreate id])
                | Some m =>
                    let '(m, tr) :=
                      if negb (invoke_config config =? nullptr)
                      then apply_invoke_config (mem (invoke_config config)) m
                      else (m, []) in
                    (Expected.mk true "",
                     mkWorld (set_initialized (set_config c config) true) true (Some m) models,
                     EvCreate id :: tr)
                end
          end
    end.

(** ** Containers *)

(** [std::forward_list::sort(comp)]: a stable sort, so its result is
    determined by [comp]; realised here by stable insertion. *)
Fixpoint forward_list_insert {A : Type} (comp : A -> A -> bool) (a : A) (l : list A) : list A :=
  match l with
  | [] => [a]
  | b :: l' => if comp b a then b :: forward_list_insert comp a l' else a :: b :: l'
  end.

Definition forward_list_sort {A : Type} (comp : A -> A -> bool) (l : list A) : list A :=
  fold_right (forward_list_insert comp) [] l.

(** [while (items_to_remove-- > 0) results.pop_front();] *)
Fixpoint pop_front_while {A : Type} (items_to_remove : nat) (results : list A) : list A :=
  match items_to_remove with
  | O => results
  | S n => pop_front_while n (tl results)
  end.

(** [results.resize(n)], called with [n <= results.size()] only. *)
Definition vector_resize {A : Type} (n : nat) (results : list A) : list A := firstn n results.

(** [_config.invoke_config && _config.invoke_config->top_k > 0] *)
Definition top_k_active (mem : Memory) (c : SSCMAMicroCore) : bool :=
  negb (invoke_config (_config c) =? nullptr)
  && (0 <? top_k (mem (invoke_config (_config c)))).

(** The truncation of a [std::vector] of results (points, keypoints):
    [std::sort] in decreasing score, then [resize]. *)
Definition vector_top_k (env : Env) {A : Type} (score : A -> float)
    (top_k : Z) (results : list A) : list A :=
  let results := std_sort env A (fun a b => float_gt (score a) (score b)) results in
  vector_resize (Nat.min (List.length results) (Z.to_nat top_k)) results.

(** The truncation of a [std::forward_list] of results (classes, boxes):
    when there are more than [top_k], sort in increasing score and pop the
    surplus from the front.  ([size] and [top_k] are non-negative [int]s, so
    the difference does not overflow.) *)
Definition forward_list_top_k {A : Type} (score : A -> float)
    (top_k : Z) (results : list A) : list A :=
  let size := Z.of_nat (List.length results) in
  let items_to_remove := size - top_k in
  if 0 <? items_to_remove
  then pop_front_while (Z.to_nat items_to_remove)
         (forward_list_sort (fun a b => float_lt (score a) (score b)) results)
  else results.

(** ** Result conversion *)

Definition point_of_result (result : ma_point_t.t) : Point.t :=
  {| Point.x := ma_point_t.x result;
     Point.y := ma_point_t.y result;
     Point.z := float_zero;
     Point.score := ma_point_t.score result;
     Point.target := ma_point_t.target result |}.

(** [classes.push_back({result.score, result.target})]: the initialisers are
    positional, each converted to the type of the member it lands on. *)
Definition class_of_result (result : ma_class_t.t) : Class.t :=
  Class.mk (float_to_int (ma_class_t.score result))
           (int_to_float (ma_class_t.target result)).

(** [boxes.push_back({result.x, result.y, result.w, result.h, result.score,
    result.target})] *)
Definition box_of_result (result : ma_bbox_t.t) : Box.t :=
  Box.mk (ma_bbox_t.x result) (ma_bbox_t.y result) (ma_bbox_t.w result)
         (ma_bbox_t.h result) (ma_bbox_t.score result) (ma_bbox_t.target result).

(** The inner loop of the pose branch; [i] is the running index. *)
Fixpoint keypoint_points (i : Z) (pts : list ma_pt3f_t.t) : list Point.t :=
  match pts with
  | [] => []
  | point :: rest =>
      {| Point.x := ma_pt3f_t.x point;
         Point.y := ma_pt3f_t.y point;
         Point.z := ma_pt3f_t.z point;
         Point.score := float_zero;
         Point.target := i |} :: keypoint_points (i + 1) rest
  end.

Definition keypoints_of_result (result : ma_keypoint3f_t.t) : Keypoints.t :=
  let b := ma_keypoint3f_t.box result in
  {| Keypoints.box :=
       {| Box.x := ma_bbox_t.x b; Box.y := ma_bbox_t.y b;
          Box.w := ma_bbox_t.w b; Box.h := ma_bbox_t.h b;
          Box.score := ma_bbox_t.score b; Box.target := ma_bbox_t.target b |};
     Keypoints.points := keypoint_points 0 (ma_keypoint3f_t.pts result) |}.

Definition perf_of_log (perf_log : ma_perf_t.t) : Perf.t :=
  {| Perf.preprocess := ma_perf_t.preprocess perf_log;
     Perf.inference := ma_perf_t.inference perf_log;
     Perf.postprocess := ma_perf_t.postprocess perf_log |}.

(** ** [SSCMAMicroCore::invoke] *)

(** The first [switch]: [None] is its [default], which returns. *)
Definition img_format (format : PixelFormat) : option ma_pixel_format_t :=
  if format =? kRGB888 then Some MA_PIXEL_FORMAT_RGB888
  else if format =? kRGB565 then Some MA_PIXEL_FORMAT_RGB565
  else if format =? kGRAY8 then Some MA_PIXEL_FORMAT_GRAYSCALE
  else if format =? kJPEG then Some MA_PIXEL_FORMAT_JPEG
  else None.

(** The second [switch]. *)
Definition img_rotate (orientation : Z) : ma_pixel_rotate_t :=
  if orientation =? 0 then MA_PIXEL_ROTATE_0
  else if orientation =? 90 then MA_PIXEL_ROTATE_90
  else if orientation =? 180 then MA_PIXEL_ROTATE_180
  else if orientation =? 270 then MA_PIXEL_ROTATE_270
  else MA_PIXEL_ROTATE_0.

(** The construction of [ma_img_t img]; [/] on integers truncates
    ([Z.quot]). *)
Definition frame_to_img (frame : Frame.t) : option ma_img_t.t :=
  match img_format (Frame.format frame) with
  | None => None
  | Some format =>
      Some {| ma_img_t.width := Frame.width frame;
              ma_img_t.height := Frame.height frame;
              ma_img_t.format := format;
              ma_img_t.rotate := img_rotate (Frame.orientation frame);
              ma_img_t.timestamp :=
                tv_sec (Frame.timestamp frame) * 1000
                + Z.quot (tv_usec (Frame.timestamp frame)) 1000;
              ma_img_t.size := Frame.size frame;
              ma_img_t.data := Frame.data frame |}
  end.

(** How the [switch] on the model type is left: by one of its [return]s or
    by a [break]. *)
Inductive switch_exit :=
| Return (e : Expected.t) (c : SSCMAMicroCore) (m : Model.t) (tr : list event)
| Break (c : SSCMAMicroCore) (m : Model.t) (tr : list event).

Definition run_failed (ret : Z) : Expected.t :=
  failure (String.append "Failed to run model: " (std_to_string ret)).

Definition called {A : Type} (cb : option callback) (ev : callback -> A -> ptr -> event)
    (a : A) (user_context : ptr) : list event :=
  match cb with
  | Some f => [ev f a user_context]
  | None => []
  end.

(** The four [case] blocks of the [switch] on the model type. *)

(** [case MA_MODEL_TYPE_PFLD] *)
Definition points_branch (env : Env) (mem : Memory) (img : ma_img_t.t) (user_context : ptr)
    (c : SSCMAMicroCore) (model : Model.t) : switch_exit :=
  let '(ret, model) := Model_run env model img in
  if negb (ret =? MA_OK env) then Return (run_failed ret) c model [EvRun img]
  else
    let results := Model.point_results model in
    let results :=
      if top_k_active mem c
      then vector_top_k env ma_point_t.score (top_k (mem (invoke_config (_config c)))) results
      else results in
    let points := map point_of_result results in
    Break (set_points c points) model
      (EvRun img :: called (_points_callback c) EvPointsCallback points user_context).

(** [case MA_MODEL_TYPE_IMCLS] *)
Definition classes_branch (env : Env) (mem : Memory) (img : ma_img_t.t) (user_context : ptr)
    (c : SSCMAMicroCore) (model : Model.t) : switch_exit :=
  let '(ret, model) := Model_run env model img in
  if negb (ret =? MA_OK env) then Return (run_failed ret) c model [EvRun img]
  else
    let results := Model.class_results model in
    let results :=
      if top_k_active mem c
      then forward_list_top_k ma_class_t.score (top_k (mem (invoke_config (_config c)))) results
      else results in
    let classes := map class_of_result results in
    Break (set_classes c classes) model
      (EvRun img :: called (_classes_callback c) EvClassesCallback classes user_context).

(** [case MA_MODEL_TYPE_FOMO: ... case MA_MODEL_TYPE_YOLO_WORLD] *)
Definition boxes_branch (env : Env) (mem : Memory) (img : ma_img_t.t) (user_context : ptr)
    (c : SSCMAMicroCore) (model : Model.t) : switch_exit :=
  let '(ret, model) := Model_run env model img in
  if negb (ret =? MA_OK env) then Return (run_failed ret) c model [EvRun img]
  else
    let results := Model.bbox_results model in
    let results :=
      if top_k_active mem c
      then forward_list_top_k ma_bbox_t.score (top_k (mem (invoke_config (_config c)))) results
      else results in
    let boxes := map box_of_result results in
    Break (set_boxes c boxes) model
      (EvRun img :: called (_boxes_callback c) EvBoxesCallback boxes user_context).

(** [case MA_MODEL_TYPE_YOLOV8_POSE] *)
Definition keypoints_branch (env : Env) (mem : Memory) (img : ma_img_t.t) (user_context : ptr)
    (c : SSCMAMicroCore) (model : Model.t) : switch_exit :=
  let '(ret, model) := Model_run env model img in
  if negb (ret =? MA_OK env) then Return (run_failed ret) c model [EvRun img]
  else
    let results := Model.keypoint_results model in
    let results :=
      if top_k_active mem c
      then vector_top_k env (fun r => ma_bbox_t.score (ma_keypoint3f_t.box r))
             (top_k (mem (invoke_config (_config c)))) results
      else results in
    let keypoints := map keypoints_of_result results in
    Break (set_keypoints c keypoints) model
      (EvRun img :: called (_keypoints_callback c) EvKeypointsCallback keypoints user_context).

(** [switch (ma_model->getType())] *)
Definition dispatch (env : Env) (mem : Memory) (img : ma_img_t.t) (user_context : ptr)
    (c : SSCMAMicroCore) (model : Model.t) : switch_exit :=
  match Model.type model with
  | MA_MODEL_TYPE_PFLD => points_branch env mem img user_context c model
  | MA_MODEL_TYPE_IMCLS => classes_branch env mem img user_context c model
  | MA_MODEL_TYPE_FOMO
  | MA_MODEL_TYPE_YOLOV5
  | MA_MODEL_TYPE_YOLOV8
  | MA_MODEL_TYPE_NVIDIA_DET
  | MA_MODEL_TYPE_YOLO_WORLD => boxes_branch env mem img user_context c model
  | MA_MODEL_TYPE_YOLOV8_POSE => keypoints_branch env mem img user_context c model
  | _ => Break c model []
  end.

(** [if (config) { _config.invoke_config = config; ... }]: the pointer is
    stored and the two thresholds are read through the stored pointer. *)
Definition override_config (mem : Memory) (config : ptr) (c : SSCMAMicroCore)
    (model : Model.t) : SSCMAMicroCore * Model.t * list event :=
  if negb (config =? nullptr)
  then
    let c := set_invoke_config c config in
    let '(model, tr) := apply_invoke_config (mem (invoke_config (_config c))) model in
    (c, model, tr)
  else (c, model, []).

(** [invoke] on a [const Frame&].  The result is [None] when the call
    dereferences a null [ma_model]. *)
Definition invoke (env : Env) (mem : Memory) (frame : Frame.t) (config : ptr)
    (user_context : ptr) (w : World) : option (Expected.t * World * list event) :=
  let c := this w in
  if negb (_initialized c) then Some (failure "Not initialized", w, [])
  else if Frame.format frame =? kUNKNOWN then Some (failure "Invalid frame format", w, [])
  else if (Frame.width frame =? 0) || (Frame.height frame =? 0)
       then Some (failure "Invalid frame dimensions", w, [])
  else if Frame.size frame =? 0 then Some (failure "Invalid frame size", w, [])
  else if Frame.data frame =? nullptr then Some (failure "Invalid frame data", w, [])
  else
    match frame_to_img frame with
    | None => Some (failure "Invalid frame format", w, [])
    | Some img =>
        match ma_model w with
        | None => None
        | Some model =>
            let '(c, model, tr0) := override_config mem config c model in
            match dispatch env mem img user_context c model with
            | Return e c model tr => Some (e, with_model w c model, tr0 ++ tr)
            | Break c model tr =>
                let perf := perf_of_log (Model.perf model) in
                Some (Expected.mk true "",
                      with_model w (set_perf c perf) model,
                      tr0 ++ tr ++ called (_perf_callback c) EvPerfCallback perf user_context)
            end
        end
    end.

(** [invoke] on a [std::shared_ptr<Frame>]; [None] is a null shared pointer. *)
Definition invoke_managed (env : Env) (mem : Memory) (frame : option Frame.t)
    (config : ptr) (user_context : ptr) (w : World)
    : option (Expected.t * World * list event) :=
  match frame with
  | None => Some (failure "Managed frame is null", w, [])
  | Some f => invoke env mem f config user_context w
  end.

(** ** Vocabulary of the statements *)

(** What [std::sort] and [forward_list::sort] require of [comp] on the
    elements they are given: a strict weak ordering (asymmetric and
    negatively transitive). *)
Definition strict_weak_on {A : Type} (comp : A -> A -> bool) (l : list A) : Prop :=
  (forall a b, In a l -> In b l -> comp a b = true -> comp b a = false) /\
  (forall a b c, In a l -> In b l -> In c l ->
     comp a b = false -> comp b c = false -> comp a c = false).

(** No element is ordered before one that precedes it. *)
Definition sorted_by {A : Type} (comp : A -> A -> bool) (l : list A) : Prop :=
  StronglySorted (fun a b => comp b a = false) l.

(** What a sort guarantees. *)
Definition sort_post {A : Type} (comp : A -> A -> bool) (l l' : list A) : Prop :=
  Permutation l l' /\ sorted_by comp l'.

(** The [std::sort] of the environment meets its specification. *)
Definition std_sort_conforms (env : Env) : Prop :=
  forall (A : Type) (comp : A -> A -> bool) (l : list A),
    strict_weak_on comp l -> sort_post comp l (std_sort env A comp l).


(** The [InvokeConfig] pointer in effect during a call of [invoke] with
    argument [config]. *)
Definition effective_invoke_config (w : World) (config : ptr) : ptr :=
  if config =? nullptr then invoke_config (_config (this w)) else config.


Definition scores_not_nan (m : Model.t) : Prop :=
  Forall (fun r => is_nan (ma_point_t.score r) = false) (Model.point_results m) /\
  Forall (fun r => is_nan (ma_class_t.score r) = false) (Model.class_results m) /\
  Forall (fun r => is_nan (ma_bbox_t.score r) = false) (Model.bbox_results m) /\
  Forall (fun r => is_nan (ma_bbox_t.score (ma_keypoint3f_t.box r)) = false)
         (Model.keypoint_results m).

(** The blocks of the [switch] on the model type, the [default] included. *)
Inductive branch :=
| PointsBranch
| ClassesBranch
| BoxesBranch
| KeypointsBranch
| DefaultBranch.

(** The [case] labels. *)
Definition branch_of (type : ma_model_type_t) : branch :=
  match type with
  | MA_MODEL_TYPE_PFLD => PointsBranch
  | MA_MODEL_TYPE_IMCLS => ClassesBranch
  | MA_MODEL_TYPE_FOMO
  | MA_MODEL_TYPE_YOLOV5
  | MA_MODEL_TYPE_YOLOV8
  | MA_MODEL_TYPE_NVIDIA_DET
  | MA_MODEL_TYPE_YOLO_WORLD => BoxesBranch
  | MA_MODEL_TYPE_YOLOV8_POSE => KeypointsBranch
  | MA_MODEL_TYPE_UNDEFINED => DefaultBranch
  end.

Definition body_of (b : branch) (env : Env) (mem : Memory) (img : ma_img_t.t)
    (user_context : ptr) (c : SSCMAMicroCore) (model : Model.t) : switch_exit :=
  match b with
  | PointsBranch => points_branch env mem img user_context c model
  | ClassesBranch => classes_branch env mem img user_context c model
  | BoxesBranch => boxes_branch env mem img user_context c model
  | KeypointsBranch => keypoints_branch env mem img user_context c model
  | DefaultBranch => Break c model []
  end.

(** The result types of the wrapper. *)
Inductive result_type :=
| PointsResult
| ClassesResult
| BoxesResult
| KeypointsResult.

(** The type of the list a block extracts, if it extracts one. *)
Definition result_type_of (b : branch) : option result_type :=
  match b with
  | PointsBranch => Some PointsResult
  | ClassesBranch => Some ClassesResult
  | BoxesBranch => Some BoxesResult
  | KeypointsBranch => Some KeypointsResult
  | DefaultBranch => None
  end.

(** The part of the object a block of the given result type assigns. *)
Definition stores (ty : result_type) (c c' : SSCMAMicroCore) : Prop :=
  match ty with
  | PointsResult => c' = set_points c (_points c')
  | ClassesResult => c' = set_classes c (_classes c')
  | BoxesResult => c' = set_boxes c (_boxes c')
  | KeypointsResult => c' = set_keypoints c (_keypoints c')
  end.

(** The result callback of a result type, applied to the list stored. *)
Definition result_callback (ty : result_type) (c c' : SSCMAMicroCore)
    (user_context : ptr) : list event :=
  match ty with
  | PointsResult => called (_points_callback c) EvPointsCallback (_points c') user_context
  | ClassesResult => called (_classes_callback c) EvClassesCallback (_classes c') user_context
  | BoxesResult => called (_boxes_callback c) EvBoxesCallback (_boxes c') user_context
  | KeypointsResult =>
      called (_keypoints_callback c) EvKeypointsCallback (_keypoints c') user_context
  end.

Definition is_run (ev : event) : bool :=
  match ev with
  | EvRun _ => true
  | _ => false
  end.

Definition is_result_callback (ev : event) : bool :=
  match ev with
  | EvPointsCallback _ _ _ | EvClassesCallback _ _ _
  | EvBoxesCallback _ _ _ | EvKeypointsCallback _ _ _ => true
  | _ => false
  end.

Definition is_perf_callback (ev : event) : bool :=
  match ev with
  | EvPerfCallback _ _ _ => true
  | _ => false
  end.

Definition is_set_config (ev : event) : bool :=
  match ev with
  | EvSetConfig _ _ => true
  | _ => false
  end.

(** The five checks at the head of [invoke], in their order: the message of
    the first one that fails. *)
Definition first_failing_check (w : World) (frame : Frame.t) : option string :=
  if negb (_initialized (this w)) then Some "Not initialized"%string
  else if Frame.format frame =? kUNKNOWN then Some "Invalid frame format"%string
  else if (Frame.width frame =? 0) || (Frame.height frame =? 0)
       then Some "Invalid frame dimensions"%string
  else if Frame.size frame =? 0 then Some "Invalid frame size"%string
  else if Frame.data frame =? nullptr then Some "Invalid frame data"%string
  else None.


(** A run of calls of [invoke] without an explicit configuration, each with
    its frame and its user context. *)
Fixpoint invoke_all (env : Env) (mem : Memory) (calls : list (Frame.t * ptr)) (w : World)
    : option (World * list event) :=
  match calls with
  | [] => Some (w, [])
  | (frame, user_context) :: rest =>
      match invoke env mem frame nullptr user_context w with
      | None => None
      | Some (_, w1, tr1) =>
          match invoke_all env mem rest w1 with
          | None => None
          | Some (w2, tr2) => Some (w2, tr1 ++ tr2)
          end
      end
  end.

(** The tag [type] selects a block that extracts a typed result list. *)
Definition selects_typed_branch (type : ma_model_type_t) : Prop :=
  exists b ty,
    result_type_of b = Some ty /\
    forall env mem img u c m,
      Model.type m = type ->
      dispatch env mem img u c m = body_of b env mem img u c m.

(** The frame passes the five checks and its format is converted. *)
Definition accepted (w : World) (frame : Frame.t) : Prop :=
  first_failing_check w frame = None /\ frame_to_img frame <> None.

(** ** A concrete engine, memory and object

    Used to run the definitions and to instantiate the statements. *)

(** The binary32 value [m * 2 ^ e]. *)
Definition f32 (m e : Z) : float := binary_normalize 24 128 m e false.

Definition demo_points : list ma_point_t.t :=
  [ma_point_t.mk (f32 1 0) (f32 2 0) (f32 1 (-1)) 0;
   ma_point_t.mk (f32 3 0) (f32 4 0) (f32 3 (-2)) 1].

Definition demo_classes : list ma_class_t.t :=
  [ma_class_t.mk (f32 3 (-2)) 3;
   ma_class_t.mk (f32 1 (-2)) 1].

Definition demo_bboxes : list ma_bbox_t.t :=
  [ma_bbox_t.mk (f32 1 0) (f32 1 0) (f32 2 0) (f32 2 0) (f32 1 (-1)) 1;
   ma_bbox_t.mk (f32 3 0) (f32 3 0) (f32 2 0) (f32 2 0) (f32 3 (-2)) 2;
   ma_bbox_t.mk (f32 5 0) (f32 5 0) (f32 2 0) (f32 2 0) (f32 1 (-2)) 3].

Definition demo_keypoints : list ma_keypoint3f_t.t :=
  [ma_keypoint3f_t.mk
     (ma_bbox_t.mk (f32 1 0) (f32 1 0) (f32 2 0) (f32 2 0) (f32 1 (-1)) 0)
     [ma_pt3f_t.mk (f32 1 0) (f32 2 0) (f32 3 0);
      ma_pt3f_t.mk (f32 4 0) (f32 5 0) (f32 6 0)]].

Definition demo_model (type : ma_model_type_t) : Model.t :=
  Model.mk type float_zero float_zero [] [] [] [] (ma_perf_t.mk 0 0 0).

(** A run that succeeds and fills every result container. *)
Definition demo_run (m : Model.t) (img : ma_img_t.t) : Z * Model.t :=
  (0, Model.mk (Model.type m) (Model.threshold m) (Model.nms m)
        demo_points demo_classes demo_bboxes demo_keypoints (ma_perf_t.mk 3 40 2)).

Definition demo_type_value (type : ma_model_type_t) : Z :=
  match type with
  | MA_MODEL_TYPE_UNDEFINED => 0
  | MA_MODEL_TYPE_FOMO => 1
  | MA_MODEL_TYPE_PFLD => 2
  | MA_MODEL_TYPE_YOLOV5 => 3
  | MA_MODEL_TYPE_IMCLS => 4
  | MA_MODEL_TYPE_YOLOV8_POSE => 5
  | MA_MODEL_TYPE_YOLOV8 => 6
  | MA_MODEL_TYPE_NVIDIA_DET => 7
  | MA_MODEL_TYPE_YOLO_WORLD => 8
  end.

(** One model in flash, in the third block; the factory answers every
    identifier with a classifier; [std::sort] is a stable sort. *)
Definition demo_env : Env :=
  {| MA_OK := 0;
     ESP_OK := 0;
     model_type_value := demo_type_value;
     engine_init := 0;
     find_partition := Some (mkPartition 0x400000 (4096 * 1024));
     spi_flash_mmap := 0;
     flash_word := fun i => if i =? 8192 then 0x54464C33 else 0;
     engine_load := fun _ => 0;
     ModelFactory_create := fun _ => Some (demo_model MA_MODEL_TYPE_IMCLS);
     Model_run := demo_run;
     std_sort := @forward_list_sort |}.

(** An [InvokeConfig] with [top_k = 1] at address 64, one with [top_k = 0]
    everywhere else. *)
Definition demo_mem : Memory :=
  fun p =>
    if p =? 64 then mkInvokeConfig 1 (f32 1 (-1)) (f32 1 (-2))
    else mkInvokeConfig 0 float_zero float_zero.

(** The same memory after the owner of the [InvokeConfig] at address 64 has
    set its [top_k] to 2. *)
Definition demo_mem_changed : Memory :=
  fun p =>
    if p =? 64 then mkInvokeConfig 2 (f32 1 (-1)) (f32 1 (-2))
    else demo_mem p.

Definition demo_config : Config := mkConfig 0 0 nullptr.

(** An object on which nothing has been called yet. *)
Definition fresh_core : SSCMAMicroCore :=
  mkCore false demo_config None None None None None [] [] [] [] (Perf.mk 0 0 0).

Definition fresh_world : World := mkWorld fresh_core false None [].

(** An initialised object on which the five callbacks have been registered,
    numbered 1 to 5. *)
Definition demo_core : SSCMAMicroCore :=
  Eval cbv in
    registerPerfCallback (Some 5)
      (registerKeypointsCallback (Some 4)
         (registerPointsCallback (Some 3)
            (registerClassesCallback (Some 2)
               (registerBoxesCallback (Some 1)
                  (set_initialized fresh_core true))))).

Definition demo_world (type : ma_model_type_t) : World :=
  mkWorld demo_core true (Some (demo_model type)) [].

Definition demo_frame : Frame.t :=
  Frame.mk kRGB565 240 240 90 (mkTimeval 12 345678) 115200 4096.

Definition demo_camera_fb : camera_fb_t.t :=
  camera_fb_t.mk 4096 115200 240 240 PIXFORMAT_RGB565 (mkTimeval 12 345678).

(** A camera frame 65536 pixels wide. *)
Definition wide_camera_fb : camera_fb_t.t :=
  camera_fb_t.mk 4096 115200 65536 240 PIXFORMAT_RGB565 (mkTimeval 12 345678).

(** A frame whose [size] is 0. *)
Definition empty_frame : Frame.t :=
  Frame.mk kRGB565 240 240 0 (mkTimeval 12 345678) 0 4096.

(** The image [invoke] builds from [demo_frame]. *)
Definition demo_img : ma_img_t.t :=
  {| ma_img_t.width := 240; ma_img_t.height := 240;
     ma_img_t.format := MA_PIXEL_FORMAT_RGB565;
     ma_img_t.rotate := MA_PIXEL_ROTATE_90;
     ma_img_t.timestamp := 12345;
     ma_img_t.size := 115200; ma_img_t.data := 4096 |}.

(** ** [SSCMAMicroCore::VideoCapture]

    The camera driver as the wrapper sees it: the return code of
    [esp_camera_init] for a configuration, the sensor found by
    [esp_camera_sensor_get] ([None] is [nullptr]) and the frame buffer handed
    out by [esp_camera_fb_get] ([None] is [nullptr]). *)
Record Camera (camera_config_t : Type) := mkCamera {
  esp_camera_init : camera_config_t -> Z;
  esp_camera_sensor_get : option Z;
  esp_camera_fb_get : option camera_fb_t.t
}.

Arguments esp_camera_init {camera_config_t} _ _.
Arguments esp_camera_sensor_get {camera_config_t} _.
Arguments esp_camera_fb_get {camera_config_t} _.

(** Calls made to the driver with an effect on it. *)
Inductive camera_event :=
| CamSetVflip (sensor : Z) (enable : Z)
| CamSetHmirror (sensor : Z) (enable : Z)
| CamFbReturn (fb : camera_fb_t.t).

(** [VideoCapture::begin(const camera_config_t&)]; the second component is
    the static [ma_camera_esp32] afterwards. *)
Definition VideoCapture_begin {camera_config_t : Type} (env : Env)
    (cam : Camera camera_config_t) (config : camera_config_t)
    (ma_camera_esp32 : option Z) : Expected.t * option Z * list camera_event :=
  let ec := esp_camera_init cam config in
  if negb (ec =? ESP_OK env)
  then (failure (String.append "Camera init failed: " (std_to_string ec)),
        ma_camera_esp32, [])
  else
    match esp_camera_sensor_get cam with
    | None => (failure "Camera sensor not found", None, [])
    | Some sensor =>
        (Expected.mk true "", Some sensor,
         [CamSetVflip sensor 1; CamSetHmirror sensor 1])
    end.

(** [VideoCapture::begin()] *)
Definition VideoCapture_begin_default : Expected.t := failure "Not implemented".

(** A [std::shared_ptr<Frame>] made by [getManagedFrame]: the frame, and the
    camera buffer its deleter has captured. *)
Record ManagedFrame := mkManagedFrame {
  managed_frame : Frame.t;
  managed_buffer : camera_fb_t.t
}.

(** [VideoCapture::getManagedFrame()].  ([new Frame{}] does not return null;
    [uninit] is the uninitialised local of [fromCameraFrame].) *)
Definition getManagedFrame {camera_config_t : Type} (uninit : Frame.t)
    (cam : Camera camera_config_t) : option ManagedFrame :=
  match esp_camera_fb_get cam with
  | None => None
  | Some frame =>
      if camera_fb_t.buf frame =? nullptr then None
      else Some (mkManagedFrame (fromCameraFrame uninit (Some frame)) frame)
  end.

(** The deleter of the shared pointer, run when its last owner goes. *)
Definition release (frame : option ManagedFrame) : list camera_event :=
  match frame with
  | None => []
  | Some f => [CamFbReturn (managed_buffer f)]
  end.

(** The body of [loop()] in the example [inference_cb.ino]: take a managed
    frame, invoke on it, and let the frame go at the end of the scope. *)
Definition loop {camera_config_t : Type} (env : Env) (mem : Memory) (uninit : Frame.t)
    (cam : Camera camera_config_t) (w : World)
    : option (Expected.t * World * list event * list camera_event) :=
  let frame := getManagedFrame uninit cam in
  match invoke_managed env mem (option_map managed_frame frame) nullptr nullptr w with
  | None => None
  | Some (e, w', tr) => Some (e, w', tr, release frame)
  end.

(** ** Vocabulary of the further statements *)

(** An initialised object has a model. *)
Definition has_model (w : World) : Prop :=
  _initialized (this w) = true -> ma_model w <> None.

(** One call made by a sketch: [begin], [invoke] or a registration. *)
Inductive sketch_call (env : Env) : World -> World -> Prop :=
| call_begin mem config w e w' tr :
    begin env mem config w = (e, w', tr) -> sketch_call env w w'
| call_invoke mem frame config u w e w' tr :
    invoke env mem frame config u w = Some (e, w', tr) -> sketch_call env w w'
| call_registerBoxes cb w :
    sketch_call env w (mkWorld (registerBoxesCallback cb (this w)) (ma_engine w) (ma_model w) (models w))
| call_registerClasses cb w :
    sketch_call env w (mkWorld (registerClassesCallback cb (this w)) (ma_engine w) (ma_model w) (models w))
| call_registerPoints cb w :
    sketch_call env w (mkWorld (registerPointsCallback cb (this w)) (ma_engine w) (ma_model w) (models w))
| call_registerKeypoints cb w :
    sketch_call env w (mkWorld (registerKeypointsCallback cb (this w)) (ma_engine w) (ma_model w) (models w))
| call_registerPerf cb w :
    sketch_call env w (mkWorld (registerPerfCallback cb (this w)) (ma_engine w) (ma_model w) (models w)).

(** Any number of calls. *)
Inductive sketch_calls (env : Env) : World -> World -> Prop :=
| calls_none w : sketch_calls env w w
| calls_more w w1 w2 :
    sketch_calls env w w1 -> sketch_call env w1 w2 -> sketch_calls env w w2.

(** Every entry of [models] has the type [begin] gives it. *)
Definition models_undefined (l : list ma_model_t.t) : Prop :=
  Forall (fun model => ma_model_t.type model = MA_MODEL_TYPE_UNDEFINED) l.

(** The offsets visited by [n] iterations of the scan that starts at [i]. *)
Definition block_offsets (n : nat) (i : Z) : list Z :=
  map (fun k => i + 4096 * Z.of_nat k) (seq 0 n).

(** The magic number 'TFL3' is found at offset [a]. *)
Definition has_magic (env : Env) (a : Z) : bool := flash_word env a =? 0x54464C33.

(** The object but for its registered callbacks. *)
Definition without_callbacks (c : SSCMAMicroCore) : SSCMAMicroCore :=
  mkCore (_initialized c) (_config c) None None None None None
    (_boxes c) (_classes c) (_points c) (_keypoints c) (_perf c).

Definition world_without_callbacks (w : World) : World :=
  mkWorld (without_callbacks (this w)) (ma_engine w) (ma_model w) (models w).

(** A [timeval] in normal form. *)
Definition normalised (t : timeval) : Prop := 0 <= tv_usec t < 1000000.

(** The seconds of [t] are not negative and its milliseconds fit the
    narrowest type a [time_t] may have, 32 bits with a sign. *)
Definition millis_fit (t : timeval) : Prop :=
  0 <= tv_sec t /\ tv_sec t * 1000 + 999 < 2 ^ 31.

(** [t1] is not later than [t2]. *)
Definition timeval_le (t1 t2 : timeval) : Prop :=
  tv_sec t1 < tv_sec t2 \/ (tv_sec t1 = tv_sec t2 /\ tv_usec t1 <= tv_usec t2).

(** The camera format is one of the four [fromCameraFrame] translates. *)
Definition supported_pixformat (format : pixformat_t) : bool :=
  match format with
  | PIXFORMAT_RGB888 | PIXFORMAT_RGB565 | PIXFORMAT_GRAYSCALE | PIXFORMAT_JPEG => true
  | _ => false
  end.

(** A list in weakly decreasing, respectively increasing, score. *)
Definition decreasing_score {A : Type} (score : A -> float) (l : list A) : Prop :=
  StronglySorted (fun a b => float_ge (score a) (score b) = true) l.


(** The engine of [demo_env] with a model whose run fails with code -3. *)
Definition failing_env : Env :=
  {| MA_OK := 0;
     ESP_OK := 0;
     model_type_value := demo_type_value;
     engine_init := 0;
     find_partition := Some (mkPartition 0x400000 (4096 * 1024));
     spi_flash_mmap := 0;
     flash_word := fun i => if i =? 8192 then 0x54464C33 else 0;
     engine_load := fun _ => 0;
     ModelFactory_create := fun _ => Some (demo_model MA_MODEL_TYPE_IMCLS);
     Model_run := fun m _ => (-3, m);
     std_sort := @forward_list_sort |}.

(** A camera whose driver hands out [demo_camera_fb]. *)
Definition demo_camera : Camera unit :=
  mkCamera unit (fun _ => 0) (Some 9) (Some demo_camera_fb).

(** ** The definitions at work *)

Example float_to_int_three_quarters : float_to_int (f32 3 (-2)) = 0.
Proof. reflexivity. Qed.

Example int_to_float_three : int_to_float 3 = f32 3 0.
Proof. reflexivity. Qed.

Example std_to_string_negative : std_to_string (-3) = "-3"%string.
Proof. reflexivity. Qed.

(** Three boxes scoring 0.5, 0.75 and 0.25 and [top_k = 2]: the list is
    sorted in increasing score and its first element popped. *)
Example forward_list_top_k_boxes :
  map ma_bbox_t.target (forward_list_top_k ma_bbox_t.score 2 demo_bboxes) = [1; 2].
Proof. reflexivity. Qed.

(** With [top_k = 3] nothing is removed and the list is not sorted. *)
Example forward_list_top_k_all :
  forward_list_top_k ma_bbox_t.score 3 demo_bboxes = demo_bboxes.
Proof. reflexivity. Qed.

Example vector_top_k_points :
  map ma_point_t.target (vector_top_k demo_env ma_point_t.score 1 demo_points) = [1].
Proof. reflexivity. Qed.

Example scan_models_demo :
  scan_models demo_env (scan_iterations (4096 * 1024)) 0 0 [] =
    [ma_model_t.mk 1 MA_MODEL_TYPE_UNDEFINED 8192].
Proof. vm_compute. reflexivity. Qed.

Example begin_twice :
  let '(e1, w1, _) := begin demo_env demo_mem demo_config fresh_world in
  let '(e2, _, _) := begin demo_env demo_mem demo_config w1 in
  e1 = Expected.mk true "" /\ e2 = failure "Already initialized".
Proof. vm_compute. split; reflexivity. Qed.

Example invoke_before_begin :
  invoke demo_env demo_mem demo_frame nullptr 0 fresh_world =
    Some (failure "Not initialized", fresh_world, []).
Proof. reflexivity. Qed.

Example invoke_managed_null :
  invoke_managed demo_env demo_mem None nullptr 0 (demo_world MA_MODEL_TYPE_PFLD) =
    Some (failure "Managed frame is null", demo_world MA_MODEL_TYPE_PFLD, []).
Proof. reflexivity. Qed.

(** A pose model: the key points of a result are numbered from 0. *)
Example invoke_keypoints_targets :
  match invoke demo_env demo_mem demo_frame nullptr 0 (demo_world MA_MODEL_TYPE_YOLOV8_POSE) with
  | Some (_, w', _) =>
      map (fun kp => map Point.target (Keypoints.points kp)) (_keypoints (this w')) = [[0; 1]]
  | None => False
  end.
Proof. vm_compute. reflexivity. Qed.

(** Registration stores the function given. *)
Lemma register_callbacks (cb : option callback) (c : SSCMAMicroCore) :
  _boxes_callback (registerBoxesCallback cb c) = cb /\
  _classes_callback (registerClassesCallback cb c) = cb /\
  _points_callback (registerPointsCallback cb c) = cb /\
  _keypoints_callback (registerKeypointsCallback cb c) = cb /\
  _perf_callback (registerPerfCallback cb c) = cb.
Proof.
  now repeat split.
Qed.

(** ** Facts about [float] comparison *)

Ltac compare_cases :=
  repeat match goal with
  | |- context [Z.compare ?x ?y] => destruct (Z.compare_spec x y)
  | H : context [Z.compare ?x ?y] |- _ => destruct (Z.compare_spec x y)
  | |- context [Pos.compare ?x ?y] => destruct (Pos.compare_spec x y)
  | H : context [Pos.compare ?x ?y] |- _ => destruct (Pos.compare_spec x y)
  end.

Ltac float_cases a b :=
  destruct a as [[]|[]| |[] ? ?], b as [[]|[]| |[] ? ?];
  simpl is_nan; try discriminate; try reflexivity.

Lemma float_lt_asym (a b : float) : float_lt a b = true -> float_lt b a = false.
Proof.
  unfold float_lt, SFltb, SFcompare.
  float_cases a b;
    rewrite ?Pos.compare_cont_spec; simpl Pos.switch_Eq;
    compare_cases; simpl; try discriminate; try reflexivity; lia.
Qed.

Lemma float_lt_negtrans (a b c : float) :
  is_nan a = false -> is_nan b = false -> is_nan c = false ->
  float_lt a b = false -> float_lt b c = false -> float_lt a c = false.
Proof.
  unfold float_lt, SFltb, SFcompare.
  float_cases a b;
    destruct c as [[]|[]| |[] ? ?]; try discriminate; try reflexivity;
    rewrite ?Pos.compare_cont_spec; simpl Pos.switch_Eq;
    intros _ _ _; compare_cases; simpl; try discriminate; try reflexivity; lia.
Qed.

Lemma float_not_lt_ge (a b : float) :
  is_nan a = false -> is_nan b = false -> float_lt a b = false -> float_ge a b = true.
Proof.
  unfold float_lt, float_ge, SFltb, SFleb, SFcompare.
  float_cases a b;
    rewrite ?Pos.compare_cont_spec; simpl Pos.switch_Eq;
    compare_cases; simpl; try discriminate; try reflexivity; lia.
Qed.


Lemma score_gt_strict_weak {A : Type} (score : A -> float) (l : list A) :
  Forall (fun r => is_nan (score r) = false) l ->
  strict_weak_on (fun a b => float_gt (score a) (score b)) l.
Proof.
  intros H. rewrite Forall_forall in H. split.
  - intros a b _ _. unfold float_gt. apply float_lt_asym.
  - intros a b c Ha Hb Hc Hab Hbc. unfold float_gt in *.
    apply (float_lt_negtrans _ (score b)); auto.
Qed.

(** ** Sorting and truncation *)

Section Sorting.

Context {A : Type} (comp : A -> A -> bool).

Lemma forward_list_insert_perm (a : A) (l : list A) :
  Permutation (a :: l) (forward_list_insert comp a l).
Proof.
  induction l as [|b l IH]; simpl.
  - apply Permutation_refl.
  - destruct (comp b a).
    + eapply perm_trans; [apply perm_swap|]. now apply perm_skip.
    + apply Permutation_refl.
Qed.

Lemma forward_list_sort_perm (l : list A) : Permutation l (forward_list_sort comp l).
Proof.
  induction l as [|a l IH]; simpl.
  - apply perm_nil.
  - eapply perm_trans; [apply perm_skip, IH|]. apply forward_list_insert_perm.
Qed.

Lemma forward_list_insert_sorted (U : list A) (a : A) (l : list A) :
  strict_weak_on comp U -> In a U -> incl l U ->
  sorted_by comp l -> sorted_by comp (forward_list_insert comp a l).
Proof.
  intros [Hasym Hneg] Ha. unfold sorted_by.
  induction l as [|b l IH]; intros Hincl Hs; simpl.
  - constructor; constructor.
  - assert (Hb : In b U) by (apply Hincl; now left).
    assert (Hl : incl l U) by (intros x Hx; apply Hincl; now right).
    inversion Hs as [|? ? Hs' Hall]; subst.
    destruct (comp b a) eqn:Hba.
    + constructor.
      * now apply IH.
      * rewrite Forall_forall in *. intros x Hx.
        apply (Permutation_in _ (Permutation_sym (forward_list_insert_perm a l))) in Hx.
        destruct Hx as [<- | Hx]; [now apply Hasym | now apply Hall].
    + constructor; [assumption|].
      constructor; [assumption|].
      rewrite Forall_forall in *. intros x Hx.
      apply (Hneg x b a); auto.
Qed.

Lemma forward_list_sort_sorted (U l : list A) :
  strict_weak_on comp U -> incl l U -> sorted_by comp (forward_list_sort comp l).
Proof.
  intros HU. induction l as [|a l IH]; intros Hincl; simpl.
  - constructor.
  - apply (forward_list_insert_sorted U); auto.
    + apply Hincl. now left.
    + intros x Hx. apply (Permutation_in _ (Permutation_sym (forward_list_sort_perm l))) in Hx.
      apply Hincl. now right.
    + apply IH. intros x Hx. apply Hincl. now right.
Qed.

(** The stable insertion sort meets the specification of a sort. *)
Lemma forward_list_sort_post (l : list A) :
  strict_weak_on comp l -> sort_post comp l (forward_list_sort comp l).
Proof.
  intros H. split.
  - apply forward_list_sort_perm.
  - apply (forward_list_sort_sorted l); [assumption | apply incl_refl].
Qed.


Lemma in_firstn (n : nat) (l : list A) (a : A) : In a (firstn n l) -> In a l.
Proof.
  intros H. rewrite <- (firstn_skipn n l). apply in_or_app. now left.
Qed.



End Sorting.

Lemma std_sort_demo_conforms : std_sort_conforms demo_env.
Proof.
  intros A comp l H. simpl. now apply forward_list_sort_post.
Qed.



(** ** The shape of a call of [invoke] *)

Lemma override_config_spec (mem : Memory) (config : ptr) (w : World) (m : Model.t) :
  exists c1 m1 tr0,
    override_config mem config (this w) m = (c1, m1, tr0) /\
    invoke_config (_config c1) = effective_invoke_config w config /\
    Model.type m1 = Model.type m /\
    _initialized c1 = _initialized (this w) /\
    _points_callback c1 = _points_callback (this w) /\
    _classes_callback c1 = _classes_callback (this w) /\
    _boxes_callback c1 = _boxes_callback (this w) /\
    _keypoints_callback c1 = _keypoints_callback (this w) /\
    _perf_callback c1 = _perf_callback (this w) /\
    (config <> nullptr ->
       c1 = set_invoke_config (this w) config /\
       m1 = fst (apply_invoke_config (mem config) m) /\
       tr0 = snd (apply_invoke_config (mem config) m)) /\
    (config = nullptr -> c1 = this w /\ m1 = m /\ tr0 = []).
Proof.
  unfold override_config, effective_invoke_config.
  destruct (config =? nullptr) eqn:Hc; simpl.
  - apply Z.eqb_eq in Hc. do 3 eexists. repeat split; try reflexivity; congruence.
  - apply Z.eqb_neq in Hc. do 3 eexists. repeat split; try reflexivity; congruence.
Qed.

(** A call that passes the checks and finds a model goes through the
    override of the configuration and the [switch]. *)
Lemma invoke_accepted (env : Env) (mem : Memory) (frame : Frame.t) (config : ptr)
    (user_context : ptr) (w : World) (img : ma_img_t.t) (m : Model.t) :
  first_failing_check w frame = None ->
  frame_to_img frame = Some img ->
  ma_model w = Some m ->
  invoke env mem frame config user_context w =
    let '(c, model, tr0) := override_config mem config (this w) m in
    match dispatch env mem img user_context c model with
    | Return e c model tr => Some (e, with_model w c model, tr0 ++ tr)
    | Break c model tr =>
        let perf := perf_of_log (Model.perf model) in
        Some (Expected.mk true "",
              with_model w (set_perf c perf) model,
              tr0 ++ tr ++ called (_perf_callback c) EvPerfCallback perf user_context)
    end.
Proof.
  unfold first_failing_check, invoke. intros Hchk Himg Hm.
  destruct (negb (_initialized (this w))); [discriminate|].
  destruct (Frame.format frame =? kUNKNOWN); [discriminate|].
  destruct ((Frame.width frame =? 0) || (Frame.height frame =? 0)); [discriminate|].
  destruct (Frame.size frame =? 0); [discriminate|].
  destruct (Frame.data frame =? nullptr); [discriminate|].
  rewrite Himg, Hm. reflexivity.
Qed.

(** A call that fails a check returns at once. *)
Lemma invoke_rejected (env : Env) (mem : Memory) (frame : Frame.t) (config : ptr)
    (user_context : ptr) (w : World) (msg : string) :
  first_failing_check w frame = Some msg ->
  invoke env mem frame config user_context w = Some (failure msg, w, []).
Proof.
  unfold first_failing_check, invoke. intros Hchk.
  destruct (negb (_initialized (this w))); [congruence|].
  destruct (Frame.format frame =? kUNKNOWN); [congruence|].
  destruct ((Frame.width frame =? 0) || (Frame.height frame =? 0)); [congruence|].
  destruct (Frame.size frame =? 0); [congruence|].
  destruct (Frame.data frame =? nullptr); [congruence|].
  discriminate.
Qed.

(** A successful call has left the [switch] by a [break]. *)
Lemma invoke_success (env : Env) (mem : Memory) (frame : Frame.t) (config : ptr)
    (user_context : ptr) (w : World) (e : Expected.t) (w' : World) (tr : list event) :
  invoke env mem frame config user_context w = Some (e, w', tr) ->
  Expected.success e = true ->
  exists img m c1 m1 tr0 c2 m2 tr1,
    first_failing_check w frame = None /\
    frame_to_img frame = Some img /\
    ma_model w = Some m /\
    override_config mem config (this w) m = (c1, m1, tr0) /\
    dispatch env mem img user_context c1 m1 = Break c2 m2 tr1 /\
    w' = with_model w (set_perf c2 (perf_of_log (Model.perf m2))) m2 /\
    tr = tr0 ++ tr1
         ++ called (_perf_callback c2) EvPerfCallback (perf_of_log (Model.perf m2)) user_context.
Proof.
  intros Hinv Hok.
  destruct (first_failing_check w frame) as [msg|] eqn:Hchk.
  { rewrite (invoke_rejected _ _ _ _ _ _ _ Hchk) in Hinv.
    injection Hinv as <- _ _. discriminate. }
  destruct (frame_to_img frame) as [img|] eqn:Himg.
  2:{ unfold first_failing_check, invoke in *.
      destruct (negb (_initialized (this w))); [discriminate|].
      destruct (Frame.format frame =? kUNKNOWN); [discriminate|].
      destruct ((Frame.width frame =? 0) || (Frame.height frame =? 0)); [discriminate|].
      destruct (Frame.size frame =? 0); [discriminate|].
      destruct (Frame.data frame =? nullptr); [discriminate|].
      rewrite Himg in Hinv. injection Hinv as <- _ _. discriminate. }
  destruct (ma_model w) as [m|] eqn:Hm.
  2:{ unfold first_failing_check, invoke in *.
      destruct (negb (_initialized (this w))); [discriminate|].
      destruct (Frame.format frame =? kUNKNOWN); [discriminate|].
      destruct ((Frame.width frame =? 0) || (Frame.height frame =? 0)); [discriminate|].
      destruct (Frame.size frame =? 0); [discriminate|].
      destruct (Frame.data frame =? nullptr); [discriminate|].
      rewrite Himg, Hm in Hinv. discriminate. }
  rewrite (invoke_accepted _ _ _ _ _ _ _ _ Hchk Himg Hm) in Hinv.
  destruct (override_config mem config (this w) m) as [[c1 m1] tr0] eqn:Hover.
  destruct (dispatch env mem img user_context c1 m1) as [e' c2 m2 tr1|c2 m2 tr1] eqn:Hd.
  - exfalso. injection Hinv as <- _ _.
    unfold dispatch, points_branch, classes_branch, boxes_branch, keypoints_branch in Hd.
    destruct (Model.type m1); try discriminate;
      destruct (Model_run env m1 img) as [ret mr];
      destruct (negb (ret =? MA_OK env)); try discriminate;
      injection Hd as <- _ _ _; discriminate.
  - injection Hinv as _ <- <-.
    exists img, m, c1, m1, tr0, c2, m2, tr1. repeat split; auto.
Qed.

Lemma override_config_trace (mem : Memory) (config : ptr) (c : SSCMAMicroCore)
    (m : Model.t) :
  Forall (fun ev => is_set_config ev = true) (snd (override_config mem config c m)).
Proof.
  unfold override_config. destruct (negb (config =? nullptr)); simpl.
  - repeat constructor.
  - constructor.
Qed.

Lemma top_k_active_true (mem : Memory) (c : SSCMAMicroCore) :
  invoke_config (_config c) <> nullptr ->
  0 < top_k (mem (invoke_config (_config c))) ->
  top_k_active mem c = true.
Proof.
  intros Hp Hk. unfold top_k_active.
  apply Z.eqb_neq in Hp. apply Z.ltb_lt in Hk. now rewrite Hp, Hk.
Qed.




(** What each [case] block has done when it is left by its [break]. *)

Ltac branch_break H :=
  let ret := fresh "ret" in
  let mr := fresh "mr" in
  let Hrun := fresh "Hrun" in
  let Hret := fresh "Hret" in
  match type of H with
  | context [Model_run ?env ?m ?img] =>
      destruct (Model_run env m img) as [ret mr] eqn:Hrun;
      destruct (negb (ret =? MA_OK env)) eqn:Hret; [discriminate|];
      apply negb_false_iff, Z.eqb_eq in Hret; subst ret;
      injection H as <- <- <-; auto
  end.

Lemma points_branch_break (env : Env) (mem : Memory) (img : ma_img_t.t) (u : ptr)
    (c : SSCMAMicroCore) (m : Model.t) (c' : SSCMAMicroCore) (m' : Model.t)
    (tr : list event) :
  points_branch env mem img u c m = Break c' m' tr ->
  let points :=
    map point_of_result
      (if top_k_active mem c
       then vector_top_k env ma_point_t.score (top_k (mem (invoke_config (_config c))))
              (Model.point_results m')
       else Model.point_results m') in
  Model_run env m img = (MA_OK env, m') /\
  c' = set_points c points /\
  tr = EvRun img :: called (_points_callback c) EvPointsCallback points u.
Proof.
  unfold points_branch. intros H. branch_break H.
Qed.

Lemma classes_branch_break (env : Env) (mem : Memory) (img : ma_img_t.t) (u : ptr)
    (c : SSCMAMicroCore) (m : Model.t) (c' : SSCMAMicroCore) (m' : Model.t)
    (tr : list event) :
  classes_branch env mem img u c m = Break c' m' tr ->
  let classes :=
    map class_of_result
      (if top_k_active mem c
       then forward_list_top_k ma_class_t.score (top_k (mem (invoke_config (_config c))))
              (Model.class_results m')
       else Model.class_results m') in
  Model_run env m img = (MA_OK env, m') /\
  c' = set_classes c classes /\
  tr = EvRun img :: called (_classes_callback c) EvClassesCallback classes u.
Proof.
  unfold classes_branch. intros H. branch_break H.
Qed.

Lemma boxes_branch_break (env : Env) (mem : Memory) (img : ma_img_t.t) (u : ptr)
    (c : SSCMAMicroCore) (m : Model.t) (c' : SSCMAMicroCore) (m' : Model.t)
    (tr : list event) :
  boxes_branch env mem img u c m = Break c' m' tr ->
  let boxes :=
    map box_of_result
      (if top_k_active mem c
       then forward_list_top_k ma_bbox_t.score (top_k (mem (invoke_config (_config c))))
              (Model.bbox_results m')
       else Model.bbox_results m') in
  Model_run env m img = (MA_OK env, m') /\
  c' = set_boxes c boxes /\
  tr = EvRun img :: called (_boxes_callback c) EvBoxesCallback boxes u.
Proof.
  unfold boxes_branch. intros H. branch_break H.
Qed.

Lemma keypoints_branch_break (env : Env) (mem : Memory) (img : ma_img_t.t) (u : ptr)
    (c : SSCMAMicroCore) (m : Model.t) (c' : SSCMAMicroCore) (m' : Model.t)
    (tr : list event) :
  keypoints_branch env mem img u c m = Break c' m' tr ->
  let keypoints :=
    map keypoints_of_result
      (if top_k_active mem c
       then vector_top_k env (fun r => ma_bbox_t.score (ma_keypoint3f_t.box r))
              (top_k (mem (invoke_config (_config c)))) (Model.keypoint_results m')
       else Model.keypoint_results m') in
  Model_run env m img = (MA_OK env, m') /\
  c' = set_keypoints c keypoints /\
  tr = EvRun img :: called (_keypoints_callback c) EvKeypointsCallback keypoints u.
Proof.
  unfold keypoints_branch. intros H. branch_break H.
Qed.

(** The [switch] executes the block its [case] labels select. *)
Lemma dispatch_body (env : Env) (mem : Memory) (img : ma_img_t.t) (u : ptr)
    (c : SSCMAMicroCore) (m : Model.t) :
  dispatch env mem img u c m = body_of (branch_of (Model.type m)) env mem img u c m.
Proof.
  unfold dispatch. now destruct (Model.type m).
Qed.

Lemma in_called {A : Type} (cb : option callback) (ev : callback -> A -> ptr -> event)
    (a : A) (u : ptr) (x : event) :
  In x (called cb ev a u) -> exists f, cb = Some f /\ x = ev f a u.
Proof.
  destruct cb as [f|]; simpl; [|contradiction].
  intros [<- | []]. now exists f.
Qed.





(** ** Conversion of the results *)

(** Points, boxes and key points keep the score and the target of the
    engine result they are converted from. *)
Lemma conversion_keeps_score_and_target :
  (forall r, Point.score (point_of_result r) = ma_point_t.score r /\
             Point.target (point_of_result r) = ma_point_t.target r) /\
  (forall r, Box.score (box_of_result r) = ma_bbox_t.score r /\
             Box.target (box_of_result r) = ma_bbox_t.target r) /\
  (forall r, Box.score (Keypoints.box (keypoints_of_result r)) =
               ma_bbox_t.score (ma_keypoint3f_t.box r) /\
             Box.target (Keypoints.box (keypoints_of_result r)) =
               ma_bbox_t.target (ma_keypoint3f_t.box r)).
Proof.
  repeat split.
Qed.

(** A class receives the converted score as its target and the converted
    target as its score. *)
Lemma class_of_result_fields (result : ma_class_t.t) :
  Class.target (class_of_result result) = float_to_int (ma_class_t.score result) /\
  Class.score (class_of_result result) = int_to_float (ma_class_t.target result).
Proof.
  split; reflexivity.
Qed.

(** C2. The classification branch run on the engine results
    [(score 0.75, target 3)] and [(score 0.25, target 1)], without truncation:
    the classes stored and handed to the callback keep the order, but the
    first has [target = 0] and [score = 3.0] and the second [target = 0] and
    [score = 1.0]: each member received the converted value of the other. *)
Theorem classes_fields_exchanged :
  Model.class_results (snd (demo_run (demo_model MA_MODEL_TYPE_IMCLS) demo_img)) =
    [ma_class_t.mk (f32 3 (-2)) 3; ma_class_t.mk (f32 1 (-2)) 1] /\
  exists w' tr,
    invoke demo_env demo_mem demo_frame nullptr 7 (demo_world MA_MODEL_TYPE_IMCLS) =
      Some (Expected.mk true "", w', tr) /\
    _classes (this w') = [Class.mk 0 (f32 3 0); Class.mk 0 (f32 1 0)] /\
    In (EvClassesCallback 2 [Class.mk 0 (f32 3 0); Class.mk 0 (f32 1 0)] 7) tr /\
    Class.mk 0 (f32 3 0) <> Class.mk 3 (f32 3 (-2)).
Proof.
  split; [reflexivity|].
  eexists. eexists. split; [vm_compute; reflexivity|].
  split; [reflexivity|]. split.
  - simpl. right. left. reflexivity.
  - discriminate.
Qed.

(** ** The image handed to the engine *)


(** The two ways out of the block selected by the model type: the run
    failed, or the results were extracted, stored and handed to the callback
    of their type; the [default] does nothing. *)
Lemma dispatch_outcome (env : Env) (mem : Memory) (img : ma_img_t.t) (u : ptr)
    (c : SSCMAMicroCore) (m : Model.t) :
  match result_type_of (branch_of (Model.type m)) with
  | Some ty =>
      (exists ret m',
         Model_run env m img = (ret, m') /\ ret <> MA_OK env /\
         dispatch env mem img u c m = Return (run_failed ret) c m' [EvRun img]) \/
      (exists c' m',
         Model_run env m img = (MA_OK env, m') /\ stores ty c c' /\
         dispatch env mem img u c m =
           Break c' m' (EvRun img :: result_callback ty c c' u))
  | None => dispatch env mem img u c m = Break c m []
  end.
Proof.
  unfold dispatch, points_branch, classes_branch, boxes_branch, keypoints_branch.
  destruct (Model.type m); simpl; try reflexivity;
    destruct (Model_run env m img) as [ret mr];
    destruct (ret =? MA_OK env) eqn:Hret; simpl;
    try (apply Z.eqb_neq in Hret; left; exists ret, mr; now repeat split);
    apply Z.eqb_eq in Hret; subst ret; right;
    match goal with
    | |- context [Break ?cx mr _ = _] => exists cx, mr
    end; repeat split; reflexivity.
Qed.

(** The calls made by the [switch]: at most one run, on the image given. *)
Lemma dispatch_trace (env : Env) (mem : Memory) (img : ma_img_t.t) (u : ptr)
    (c : SSCMAMicroCore) (m : Model.t) (x : event) :
  In x (match dispatch env mem img u c m with
        | Return _ _ _ tr => tr
        | Break _ _ tr => tr
        end) ->
  x = EvRun img \/ is_result_callback x = true.
Proof.
  pose proof (dispatch_outcome env mem img u c m) as H.
  destruct (result_type_of (branch_of (Model.type m))) as [ty|].
  - destruct H as [(ret & m' & _ & _ & ->) | (c' & m' & _ & _ & ->)].
    + intros [<- | []]. now left.
    + intros [<- | Hin]; [now left|]. right.
      destruct ty; simpl in Hin; apply in_called in Hin;
        destruct Hin as (f & _ & ->); reflexivity.
  - rewrite H. intros [].
Qed.

Lemma run_in_invoke_trace (env : Env) (mem : Memory) (frame : Frame.t) (config : ptr)
    (u : ptr) (w : World) (e : Expected.t) (w' : World) (tr : list event)
    (img' : ma_img_t.t) :
  invoke env mem frame config u w = Some (e, w', tr) ->
  In (EvRun img') tr ->
  frame_to_img frame = Some img'.
Proof.
  intros Hinv Hin.
  destruct (first_failing_check w frame) as [msg|] eqn:Hchk.
  { rewrite (invoke_rejected _ _ _ _ _ _ _ Hchk) in Hinv.
    injection Hinv as _ _ <-. contradiction. }
  destruct (frame_to_img frame) as [img|] eqn:Himg.
  2:{ unfold first_failing_check, invoke in *.
      destruct (negb (_initialized (this w))); [discriminate|].
      destruct (Frame.format frame =? kUNKNOWN); [discriminate|].
      destruct ((Frame.width frame =? 0) || (Frame.height frame =? 0)); [discriminate|].
      destruct (Frame.size frame =? 0); [discriminate|].
      destruct (Frame.data frame =? nullptr); [discriminate|].
      rewrite Himg in Hinv. injection Hinv as _ _ <-. contradiction. }
  destruct (ma_model w) as [m|] eqn:Hm.
  2:{ unfold first_failing_check, invoke in *.
      destruct (negb (_initialized (this w))); [discriminate|].
      destruct (Frame.format frame =? kUNKNOWN); [discriminate|].
      destruct ((Frame.width frame =? 0) || (Frame.height frame =? 0)); [discriminate|].
      destruct (Frame.size frame =? 0); [discriminate|].
      destruct (Frame.data frame =? nullptr); [discriminate|].
      rewrite Himg, Hm in Hinv. discriminate. }
  rewrite (invoke_accepted _ _ _ _ _ _ _ _ Hchk Himg Hm) in Hinv.
  pose proof (override_config_trace mem config (this w) m) as Htr0.
  destruct (override_config mem config (this w) m) as [[c1 m1] tr0].
  simpl in Htr0. rewrite Forall_forall in Htr0.
  pose proof (dispatch_trace env mem img u c1 m1 (EvRun img')) as Hd.
  destruct (dispatch env mem img u c1 m1) as [e' c2 m2 tr1|c2 m2 tr1].
  - injection Hinv as _ _ <-.
    apply in_app_or in Hin. destruct Hin as [Hin | Hin].
    + apply Htr0 in Hin. discriminate.
    + destruct (Hd Hin) as [E | E]; [now injection E as -> | discriminate].
  - injection Hinv as _ _ <-.
    apply in_app_or in Hin. destruct Hin as [Hin | Hin].
    + apply Htr0 in Hin. discriminate.
    + apply in_app_or in Hin. destruct Hin as [Hin | Hin].
      * destruct (Hd Hin) as [E | E]; [now injection E as -> | discriminate].
      * apply in_called in Hin. destruct Hin as (f & _ & Hin). discriminate.
Qed.



(** ** The dispatch on the model type *)

Lemma invoke_unconverted (env : Env) (mem : Memory) (frame : Frame.t) (config : ptr)
    (u : ptr) (w : World) :
  first_failing_check w frame = None ->
  frame_to_img frame = None ->
  invoke env mem frame config u w = Some (failure "Invalid frame format", w, []).
Proof.
  unfold first_failing_check, invoke. intros Hchk Himg.
  destruct (negb (_initialized (this w))); [discriminate|].
  destruct (Frame.format frame =? kUNKNOWN); [discriminate|].
  destruct ((Frame.width frame =? 0) || (Frame.height frame =? 0)); [discriminate|].
  destruct (Frame.size frame =? 0); [discriminate|].
  destruct (Frame.data frame =? nullptr); [discriminate|].
  now rewrite Himg.
Qed.

(** The whole of an accepted call, by the block its model type selects. *)
Lemma invoke_outcome (env : Env) (mem : Memory) (frame : Frame.t) (config : ptr)
    (u : ptr) (w : World) (img : ma_img_t.t) (m : Model.t) :
  first_failing_check w frame = None ->
  frame_to_img frame = Some img ->
  ma_model w = Some m ->
  exists c1 m1 tr0,
    override_config mem config (this w) m = (c1, m1, tr0) /\
    match result_type_of (branch_of (Model.type m)) with
    | Some ty =>
        (exists ret m',
           Model_run env m1 img = (ret, m') /\ ret <> MA_OK env /\
           invoke env mem frame config u w =
             Some (run_failed ret, with_model w c1 m', tr0 ++ [EvRun img])) \/
        (exists c2 m',
           Model_run env m1 img = (MA_OK env, m') /\ stores ty c1 c2 /\
           invoke env mem frame config u w =
             Some (Expected.mk true "",
                   with_model w (set_perf c2 (perf_of_log (Model.perf m'))) m',
                   tr0 ++ (EvRun img :: result_callback ty c1 c2 u)
                   ++ called (_perf_callback c2) EvPerfCallback
                        (perf_of_log (Model.perf m')) u))
    | None =>
        invoke env mem frame config u w =
          Some (Expected.mk true "",
                with_model w (set_perf c1 (perf_of_log (Model.perf m1))) m1,
                tr0 ++ called (_perf_callback c1) EvPerfCallback
                         (perf_of_log (Model.perf m1)) u)
    end.
Proof.
  intros Hchk Himg Hm.
  rewrite (invoke_accepted _ _ _ _ _ _ _ _ Hchk Himg Hm).
  destruct (override_config_spec mem config w m)
    as (c1 & m1 & tr0 & Hover & _ & Hty & _).
  rewrite Hover. exists c1, m1, tr0. split; [reflexivity|].
  pose proof (dispatch_outcome env mem img u c1 m1) as H.
  rewrite Hty in H.
  destruct (result_type_of (branch_of (Model.type m))) as [ty|].
  - destruct H as [(ret & m' & Hrun & Hret & ->) | (c2 & m' & Hrun & Hst & ->)].
    + left. now exists ret, m'.
    + right. now exists c2, m'.
  - now rewrite H.
Qed.

(** A block assigns the list of its result type and nothing else. *)
Lemma stores_frame (ty : result_type) (c c' : SSCMAMicroCore) :
  stores ty c c' ->
  _initialized c' = _initialized c /\
  _config c' = _config c /\
  _points_callback c' = _points_callback c /\
  _classes_callback c' = _classes_callback c /\
  _boxes_callback c' = _boxes_callback c /\
  _keypoints_callback c' = _keypoints_callback c /\
  _perf_callback c' = _perf_callback c /\
  _perf c' = _perf c.
Proof.
  destruct ty; simpl; intros H; rewrite H; simpl; repeat split; reflexivity.
Qed.

(** C4 (as amended). In an accepted call the model type selects exactly one
    of five blocks through the [case] labels of [branch_of]: one of the four
    that run the model and extract a list of their own result type (points,
    classes, boxes, keypoints), or the [default], which neither runs the
    model nor extracts anything; the call is then the execution of that
    block, and a block that extracts assigns the list of its type only. *)
Theorem invoke_dispatch (env : Env) (mem : Memory) (frame : Frame.t) (config : ptr)
    (user_context : ptr) (w : World) (img : ma_img_t.t) (m : Model.t) :
  first_failing_check w frame = None ->
  frame_to_img frame = Some img ->
  ma_model w = Some m ->
  exists c1 m1 tr0,
    override_config mem config (this w) m = (c1, m1, tr0) /\
    dispatch env mem img user_context c1 m1 =
      body_of (branch_of (Model.type m)) env mem img user_context c1 m1 /\
    match result_type_of (branch_of (Model.type m)) with
    | Some ty =>
        (exists ret m',
           Model_run env m1 img = (ret, m') /\ ret <> MA_OK env /\
           invoke env mem frame config user_context w =
             Some (run_failed ret, with_model w c1 m', tr0 ++ [EvRun img])) \/
        (exists c2 m',
           Model_run env m1 img = (MA_OK env, m') /\ stores ty c1 c2 /\
           invoke env mem frame config user_context w =
             Some (Expected.mk true "",
                   with_model w (set_perf c2 (perf_of_log (Model.perf m'))) m',
                   tr0 ++ (EvRun img :: result_callback ty c1 c2 user_context)
                   ++ called (_perf_callback c2) EvPerfCallback
                        (perf_of_log (Model.perf m')) user_context))
    | None =>
        invoke env mem frame config user_context w =
          Some (Expected.mk true "",
                with_model w (set_perf c1 (perf_of_log (Model.perf m1))) m1,
                tr0 ++ called (_perf_callback c1) EvPerfCallback
                         (perf_of_log (Model.perf m1)) user_context)
    end /\
    (forall b1 b2, result_type_of b1 = result_type_of b2 -> b1 = b2) /\
    (forall b, result_type_of b = None <-> b = DefaultBranch).
Proof.
  intros Hchk Himg Hm.
  destruct (invoke_outcome env mem frame config user_context w img m Hchk Himg Hm)
    as (c1 & m1 & tr0 & Hover & H).
  exists c1, m1, tr0. split; [assumption|]. split.
  - rewrite dispatch_body. f_equal. f_equal.
    destruct (override_config_spec mem config w m)
      as (c1' & m1' & tr0' & Hover' & _ & Hty & _).
    rewrite Hover in Hover'. now injection Hover' as _ <- _.
  - split; [assumption|]. split.
    + intros [] []; simpl; congruence.
    + intros []; simpl; split; congruence.
Qed.

(** A detector on [demo_frame]: the boxes block runs; an undefined model
    type on the same frame: the call succeeds without running the model. *)
Lemma invoke_dispatch_witness :
  (exists w' tr,
     invoke demo_env demo_mem demo_frame nullptr 7 (demo_world MA_MODEL_TYPE_YOLOV5) =
       Some (Expected.mk true "", w', EvRun demo_img :: tr)) /\
  (exists w',
     invoke demo_env demo_mem demo_frame nullptr 7 (demo_world MA_MODEL_TYPE_UNDEFINED) =
       Some (Expected.mk true "", w', [EvPerfCallback 5 (Perf.mk 0 0 0) 7])).
Proof.
  split.
  - destruct (invoke_dispatch demo_env demo_mem demo_frame nullptr 7
                (demo_world MA_MODEL_TYPE_YOLOV5) demo_img
                (demo_model MA_MODEL_TYPE_YOLOV5) eq_refl eq_refl eq_refl)
      as (c1 & m1 & tr0 & Hover & _ & H & _).
    injection Hover as <- <- <-. simpl in H.
    destruct H as [(ret & m' & Hrun & Hret & _) | (c2 & m' & _ & _ & H)].
    + exfalso. injection Hrun as <- _. now apply Hret.
    + eexists. eexists. exact H.
  - destruct (invoke_dispatch demo_env demo_mem demo_frame nullptr 7
                (demo_world MA_MODEL_TYPE_UNDEFINED) demo_img
                (demo_model MA_MODEL_TYPE_UNDEFINED) eq_refl eq_refl eq_refl)
      as (c1 & m1 & tr0 & Hover & _ & H & _).
    injection Hover as <- <- <-. simpl in H.
    eexists. exact H.
Defined.

(** C4 (as stated). The tag [MA_MODEL_TYPE_UNDEFINED] selects no block that
    extracts a typed result: on it a call succeeds with the perf callback as
    its only effect. *)
Lemma dispatch_typed_counterexample :
  ~ selects_typed_branch MA_MODEL_TYPE_UNDEFINED /\
  invoke demo_env demo_mem demo_frame nullptr 7 (demo_world MA_MODEL_TYPE_UNDEFINED) =
    Some (Expected.mk true "",
          demo_world MA_MODEL_TYPE_UNDEFINED,
          [EvPerfCallback 5 (Perf.mk 0 0 0) 7]).
Proof.
  split; [|reflexivity].
  intros (b & ty & Hb & H).
  specialize (H demo_env demo_mem demo_img 7 demo_core
                (demo_model MA_MODEL_TYPE_UNDEFINED) eq_refl).
  destruct b; try discriminate H. discriminate Hb.
Qed.

(** ** Callbacks *)

Lemma filter_set_config (l : list event) :
  Forall (fun ev => is_set_config ev = true) l ->
  filter is_result_callback l = [] /\ filter is_perf_callback l = [] /\
  filter is_run l = [].
Proof.
  induction 1 as [|ev l Hev _ (IH1 & IH2 & IH3)]; simpl.
  - now repeat split.
  - destruct ev; try discriminate. simpl. now repeat split.
Qed.

Lemma filter_result_callback (ty : result_type) (c c' : SSCMAMicroCore) (u : ptr) :
  filter is_result_callback (result_callback ty c c' u) = result_callback ty c c' u /\
  filter is_perf_callback (result_callback ty c c' u) = [].
Proof.
  destruct ty; simpl;
    match goal with
    | |- context [called ?cb _ _ _] => destruct cb
    end; simpl; now split.
Qed.

Lemma filter_perf_callback (cb : option callback) (perf : Perf.t) (u : ptr) :
  filter is_result_callback (called cb EvPerfCallback perf u) = [] /\
  filter is_perf_callback (called cb EvPerfCallback perf u) =
    called cb EvPerfCallback perf u.
Proof.
  destruct cb; simpl; now split.
Qed.

(** C5. On a successful [invoke]: the calls of result callbacks are exactly
    one call of the callback registered for the result type of the model's
    block, with the list stored and the caller's [user_context], and none
    when that callback is not registered or the block extracts no result;
    the calls of the perf callback are exactly one call, when it is
    registered, with the model's three timings and [user_context]. *)
Theorem invoke_callbacks (env : Env) (mem : Memory) (frame : Frame.t) (config : ptr)
    (user_context : ptr) (w : World) (e : Expected.t) (w' : World) (tr : list event)
    (m m' : Model.t) :
  invoke env mem frame config user_context w = Some (e, w', tr) ->
  Expected.success e = true ->
  ma_model w = Some m ->
  ma_model w' = Some m' ->
  filter is_result_callback tr =
    match result_type_of (branch_of (Model.type m)) with
    | Some PointsResult =>
        match _points_callback (this w) with
        | Some f => [EvPointsCallback f (_points (this w')) user_context]
        | None => []
        end
    | Some ClassesResult =>
        match _classes_callback (this w) with
        | Some f => [EvClassesCallback f (_classes (this w')) user_context]
        | None => []
        end
    | Some BoxesResult =>
        match _boxes_callback (this w) with
        | Some f => [EvBoxesCallback f (_boxes (this w')) user_context]
        | None => []
        end
    | Some KeypointsResult =>
        match _keypoints_callback (this w) with
        | Some f => [EvKeypointsCallback f (_keypoints (this w')) user_context]
        | None => []
        end
    | None => []
    end /\
  filter is_perf_callback tr =
    match _perf_callback (this w) with
    | Some f =>
        [EvPerfCallback f
           (Perf.mk (ma_perf_t.preprocess (Model.perf m'))
                    (ma_perf_t.inference (Model.perf m'))
                    (ma_perf_t.postprocess (Model.perf m')))
           user_context]
    | None => []
    end.
Proof.
  intros Hinv Hok Hm Hm'.
  destruct (invoke_success _ _ _ _ _ _ _ _ _ Hinv Hok)
    as (img & m0 & _ & _ & _ & _ & _ & _ & Hchk & Himg & Hm0 & _).
  rewrite Hm in Hm0. injection Hm0 as <-.
  destruct (invoke_outcome env mem frame config user_context w img m Hchk Himg Hm)
    as (c1 & m1 & tr0 & Hover & H).
  pose proof (override_config_trace mem config (this w) m) as Htr0.
  rewrite Hover in Htr0. simpl in Htr0.
  destruct (filter_set_config tr0 Htr0) as (F1 & F2 & _).
  destruct (override_config_spec mem config w m)
    as (c1' & m1' & tr0' & Hover' & _ & _ & _ & Hcp & Hcc & Hcb & Hck & Hcf & _).
  rewrite Hover in Hover'. injection Hover' as <- <- <-.
  destruct (result_type_of (branch_of (Model.type m))) as [ty|].
  - destruct H as [(ret & mr & _ & _ & H) | (c2 & mr & _ & Hst & H)].
    + rewrite H in Hinv. injection Hinv as <- _ _. discriminate.
    + rewrite H in Hinv. injection Hinv as _ <- <-.
      simpl in Hm'. injection Hm' as <-.
      destruct (stores_frame ty c1 c2 Hst) as (_ & _ & _ & _ & _ & _ & Hpf & _).
      rewrite !filter_app, F1, F2. simpl filter. rewrite !filter_app.
      destruct (filter_result_callback ty c1 c2 user_context) as [R1 R2].
      destruct (filter_perf_callback (_perf_callback c2) (perf_of_log (Model.perf mr))
                  user_context) as [P1 P2].
      rewrite R1, R2, P1, P2, app_nil_r. simpl. split.
      * rewrite <- Hcp, <- Hcc, <- Hcb, <- Hck. destruct ty; reflexivity.
      * rewrite Hpf, <- Hcf. reflexivity.
  - rewrite H in Hinv. injection Hinv as _ <- <-.
    simpl in Hm'. injection Hm' as <-.
    rewrite !filter_app, F1, F2.
    destruct (filter_perf_callback (_perf_callback c1) (perf_of_log (Model.perf m1))
                user_context) as [P1 P2].
    rewrite P1, P2. simpl. split; [reflexivity|].
    rewrite <- Hcf. reflexivity.
Qed.

(** A detector with the five callbacks registered: one call of the boxes
    callback, with the three boxes, and one of the perf callback. *)
Lemma invoke_callbacks_witness :
  exists w' tr,
    invoke demo_env demo_mem demo_frame nullptr 7 (demo_world MA_MODEL_TYPE_YOLOV5) =
      Some (Expected.mk true "", w', tr) /\
    filter is_result_callback tr = [EvBoxesCallback 1 (map box_of_result demo_bboxes) 7] /\
    filter is_perf_callback tr = [EvPerfCallback 5 (Perf.mk 3 40 2) 7].
Proof.
  eexists. eexists. split; [reflexivity|].
  exact (invoke_callbacks demo_env demo_mem demo_frame nullptr 7
           (demo_world MA_MODEL_TYPE_YOLOV5) _ _ _ _ _ eq_refl eq_refl eq_refl eq_refl).
Defined.

(** ** [begin] *)

(** The three ways [begin] ends: before the factory is called; with the
    factory returning null; with the model created, configured and the
    argument stored. *)
Lemma begin_outcome (env : Env) (mem : Memory) (config : Config) (w : World)
    (e : Expected.t) (w' : World) (tr : list event) :
  begin env mem config w = (e, w', tr) ->
  (tr = [] /\ Expected.success e = false /\ this w' = this w) \/
  (tr = [EvCreate (factory_id (this w))] /\
   ModelFactory_create env (factory_id (this w)) = None /\
   Expected.success e = false /\ this w' = this w /\ ma_model w' = None) \/
  (exists m,
     ModelFactory_create env (factory_id (this w)) = Some m /\
     _initialized (this w) = false /\
     e = Expected.mk true "" /\
     this w' = set_initialized (set_config (this w) config) true /\
     ((invoke_config config <> nullptr /\
       tr = EvCreate (factory_id (this w))
            :: snd (apply_invoke_config (mem (invoke_config config)) m) /\
       ma_model w' = Some (fst (apply_invoke_config (mem (invoke_config config)) m))) \/
      (invoke_config config = nullptr /\
       tr = [EvCreate (factory_id (this w))] /\
       ma_model w' = Some m))).
Proof.
  unfold begin. intros H.
  destruct (_initialized (this w)) eqn:Hinit.
  { injection H as <- <- <-. left. now repeat split. }
  destruct (negb (engine_init env =? MA_OK env)).
  { injection H as <- <- <-. left. now repeat split. }
  destruct (find_partition env) as [partition|].
  2:{ injection H as <- <- <-. left. now repeat split. }
  destruct (negb (spi_flash_mmap env =? ESP_OK env)).
  { injection H as <- <- <-. left. now repeat split. }
  destruct (find_model env config _) as [it|].
  2:{ injection H as <- <- <-. left. now repeat split. }
  destruct (negb (engine_load env (ma_model_t.addr it) =? MA_OK env)).
  { injection H as <- <- <-. left. now repeat split. }
  destruct (ModelFactory_create env (factory_id (this w))) as [m|] eqn:Hcreate.
  2:{ injection H as <- <- <-. right. left. now repeat split. }
  right. right. exists m.
  destruct (invoke_config config =? nullptr) eqn:Hp; simpl in H;
    injection H as <- <- <-.
  - apply Z.eqb_eq in Hp. repeat split; auto.
  - apply Z.eqb_neq in Hp. repeat split; auto.
Qed.

(** C6. With a non-null [InvokeConfig]: every run of the model made by
    [invoke] comes after the two [setConfig] calls that set the score
    threshold and the NMS threshold to the values of that configuration, and
    the model run carries them; every accepted call starts with these two
    calls.  In [begin], when the configuration has a non-null
    [invoke_config] and the model is created, the two calls follow the
    creation and the model kept carries the two values. *)
Theorem thresholds_set (env : Env) (mem : Memory) :
  (forall frame config u w e w' tr img,
     config <> nullptr ->
     invoke env mem frame config u w = Some (e, w', tr) ->
     In (EvRun img) tr ->
     exists m rest,
       ma_model w = Some m /\
       tr = EvSetConfig MA_MODEL_CFG_OPT_THRESHOLD (score_threshold (mem config))
            :: EvSetConfig MA_MODEL_CFG_OPT_NMS (nms_threshold (mem config))
            :: EvRun img :: rest /\
       let m1 := setConfig
                   (setConfig m MA_MODEL_CFG_OPT_THRESHOLD (score_threshold (mem config)))
                   MA_MODEL_CFG_OPT_NMS (nms_threshold (mem config)) in
       Model.threshold m1 = score_threshold (mem config) /\
       Model.nms m1 = nms_threshold (mem config) /\
       ma_model w' = Some (snd (Model_run env m1 img))) /\
  (forall frame config u w e w' tr,
     config <> nullptr ->
     accepted w frame ->
     invoke env mem frame config u w = Some (e, w', tr) ->
     exists rest,
       tr = EvSetConfig MA_MODEL_CFG_OPT_THRESHOLD (score_threshold (mem config))
            :: EvSetConfig MA_MODEL_CFG_OPT_NMS (nms_threshold (mem config))
            :: rest) /\
  (forall config w e w' tr,
     invoke_config config <> nullptr ->
     begin env mem config w = (e, w', tr) ->
     Expected.success e = true ->
     exists id m,
       ModelFactory_create env id = Some m /\
       tr = [EvCreate id;
             EvSetConfig MA_MODEL_CFG_OPT_THRESHOLD
               (score_threshold (mem (invoke_config config)));
             EvSetConfig MA_MODEL_CFG_OPT_NMS
               (nms_threshold (mem (invoke_config config)))] /\
       let m1 := setConfig
                   (setConfig m MA_MODEL_CFG_OPT_THRESHOLD
                      (score_threshold (mem (invoke_config config))))
                   MA_MODEL_CFG_OPT_NMS (nms_threshold (mem (invoke_config config))) in
       Model.threshold m1 = score_threshold (mem (invoke_config config)) /\
       Model.nms m1 = nms_threshold (mem (invoke_config config)) /\
       ma_model w' = Some m1).
Proof.
  split; [|split].
  - intros frame config u w e w' tr img Hc Hinv Hin.
    pose proof (run_in_invoke_trace _ _ _ _ _ _ _ _ _ _ Hinv Hin) as Himg.
    destruct (first_failing_check w frame) as [msg|] eqn:Hchk.
    { rewrite (invoke_rejected _ _ _ _ _ _ _ Hchk) in Hinv.
      injection Hinv as _ _ <-. contradiction. }
    destruct (ma_model w) as [m|] eqn:Hm.
    2:{ unfold first_failing_check, invoke in *.
        destruct (negb (_initialized (this w))); [discriminate|].
        destruct (Frame.format frame =? kUNKNOWN); [discriminate|].
        destruct ((Frame.width frame =? 0) || (Frame.height frame =? 0)); [discriminate|].
        destruct (Frame.size frame =? 0); [discriminate|].
        destruct (Frame.data frame =? nullptr); [discriminate|].
        rewrite Himg, Hm in Hinv. discriminate. }
    destruct (invoke_outcome env mem frame config u w img m Hchk Himg Hm)
      as (c1 & m1 & tr0 & Hover & H).
    destruct (override_config_spec mem config w m)
      as (c1' & m1' & tr0' & Hover' & _ & _ & _ & _ & _ & _ & _ & _ & Hnn & _).
    rewrite Hover in Hover'. injection Hover' as <- <- <-.
    destruct (Hnn Hc) as (_ & -> & ->). simpl in H |- *.
    exists m.
    destruct (result_type_of (branch_of (Model.type m))) as [ty|].
    + destruct H as [(ret & mr & Hrun & _ & H) | (c2 & mr & Hrun & _ & H)];
        rewrite H in Hinv; injection Hinv as _ <- <-; simpl;
        eexists; (split; [reflexivity|]); (split; [reflexivity|]);
        rewrite Hrun; now repeat split.
    + rewrite H in Hinv. injection Hinv as _ _ <-.
      simpl in Hin. destruct Hin as [Hin | [Hin | Hin]]; try discriminate.
      apply in_called in Hin. destruct Hin as (f & _ & Hin). discriminate.
  - intros frame config u w e w' tr Hc [Hchk Himg] Hinv.
    destruct (frame_to_img frame) as [img|] eqn:Hi; [|contradiction].
    destruct (ma_model w) as [m|] eqn:Hm.
    2:{ unfold first_failing_check, invoke in *.
        destruct (negb (_initialized (this w))); [discriminate|].
        destruct (Frame.format frame =? kUNKNOWN); [discriminate|].
        destruct ((Frame.width frame =? 0) || (Frame.height frame =? 0)); [discriminate|].
        destruct (Frame.size frame =? 0); [discriminate|].
        destruct (Frame.data frame =? nullptr); [discriminate|].
        rewrite Hi, Hm in Hinv. discriminate. }
    destruct (invoke_outcome env mem frame config u w img m Hchk Hi Hm)
      as (c1 & m1 & tr0 & Hover & H).
    destruct (override_config_spec mem config w m)
      as (c1' & m1' & tr0' & Hover' & _ & _ & _ & _ & _ & _ & _ & _ & Hnn & _).
    rewrite Hover in Hover'. injection Hover' as <- <- <-.
    destruct (Hnn Hc) as (_ & -> & ->). simpl in H.
    destruct (result_type_of (branch_of (Model.type m))) as [ty|].
    + destruct H as [(ret & mr & _ & _ & H) | (c2 & mr & _ & _ & H)];
        rewrite H in Hinv; injection Hinv as _ _ <-; eexists; reflexivity.
    + rewrite H in Hinv. injection Hinv as _ _ <-. eexists. reflexivity.
  - intros config w e w' tr Hc Hb Hok.
    destruct (begin_outcome _ _ _ _ _ _ _ Hb)
      as [(_ & Hf & _) | [(_ & _ & Hf & _) | (m & Hcreate & _ & _ & _ & H)]];
      try congruence.
    destruct H as [(_ & -> & Hm') | (Hnull & _)]; [|contradiction].
    exists (factory_id (this w)), m. simpl. now repeat split.
Qed.

(** [invoke] on a detector with the configuration at address 64 (thresholds
    0.5 and 0.25); [begin] on a fresh object with the same configuration. *)
Lemma thresholds_set_witness :
  (exists rest w' e,
     invoke demo_env demo_mem demo_frame 64 7 (demo_world MA_MODEL_TYPE_YOLOV5) =
       Some (e, w',
             EvSetConfig MA_MODEL_CFG_OPT_THRESHOLD (f32 1 (-1))
             :: EvSetConfig MA_MODEL_CFG_OPT_NMS (f32 1 (-2))
             :: EvRun demo_img :: rest)) /\
  (exists w',
     begin demo_env demo_mem (mkConfig 0 0 64) fresh_world =
       (Expected.mk true "", w',
        [EvCreate 0;
         EvSetConfig MA_MODEL_CFG_OPT_THRESHOLD (f32 1 (-1));
         EvSetConfig MA_MODEL_CFG_OPT_NMS (f32 1 (-2))])).
Proof.
  destruct (thresholds_set demo_env demo_mem) as (Hrun & _ & Hbegin).
  split.
  - assert (Hc : 64 <> nullptr) by discriminate.
    destruct (invoke demo_env demo_mem demo_frame 64 7 (demo_world MA_MODEL_TYPE_YOLOV5))
      as [[[e w'] tr]|] eqn:Hinv; [|vm_compute in Hinv; discriminate].
    assert (Hin : In (EvRun demo_img) tr).
    { vm_compute in Hinv. injection Hinv as _ _ <-. right. right. left. reflexivity. }
    destruct (Hrun _ _ _ _ _ _ _ demo_img Hc Hinv Hin) as (m & rest & _ & -> & _).
    exists rest, w', e. reflexivity.
  - assert (Hc : invoke_config (mkConfig 0 0 64) <> nullptr) by discriminate.
    destruct (begin demo_env demo_mem (mkConfig 0 0 64) fresh_world)
      as [[e w'] tr] eqn:Hb.
    assert (Hok : Expected.success e = true).
    { vm_compute in Hb. now injection Hb as <- _ _. }
    destruct (Hbegin _ _ _ _ _ Hc Hb Hok) as (id & m & _ & -> & _).
    exists w'. vm_compute in Hb. injection Hb as <- _ <-. reflexivity.
Defined.

(** C8 (as amended). Whenever [begin] calls the model factory, the
    identifier it passes is the [model_id] stored in the object before the
    call when that is non-negative and 0 otherwise, whatever the [model_id]
    of the argument; the argument is stored, and the object marked
    initialised, only when the model has been created; from then on every
    call of [begin] returns "Already initialized" without calling the
    factory; a call that fails leaves the stored configuration as it was. *)
Theorem begin_model_id (env : Env) (mem : Memory) (config : Config) (w : World)
    (e : Expected.t) (w' : World) (tr : list event) :
  begin env mem config w = (e, w', tr) ->
  (forall id,
     In (EvCreate id) tr ->
     id = (if 0 <=? model_id (_config (this w)) then model_id (_config (this w)) else 0)) /\
  (Expected.success e = true ->
     In (EvCreate (if 0 <=? model_id (_config (this w))
                   then model_id (_config (this w)) else 0)) tr /\
     _config (this w') = config /\
     _initialized (this w') = true /\
     forall config2,
       begin env mem config2 w' = (failure "Already initialized", w', [])) /\
  (Expected.success e = false ->
     _config (this w') = _config (this w) /\
     _initialized (this w') = _initialized (this w)).
Proof.
  intros Hb. fold (factory_id (this w)).
  destruct (begin_outcome _ _ _ _ _ _ _ Hb)
    as [(-> & Hf & Hthis) | [(-> & _ & Hf & Hthis & _) | (m & _ & _ & -> & Hthis & H)]].
  - split; [|split].
    + intros id [].
    + intros Hok. congruence.
    + intros _. now rewrite Hthis.
  - split; [|split].
    + intros id [Hin | []]. now injection Hin as <-.
    + intros Hok. congruence.
    + intros _. now rewrite Hthis.
  - split; [|split].
    + intros id Hin.
      destruct H as [(_ & -> & _) | (_ & -> & _)].
      * destruct Hin as [Hin | [Hin | [Hin | []]]]; try discriminate.
        now injection Hin as <-.
      * destruct Hin as [Hin | []]. now injection Hin as <-.
    + intros _. split; [|split; [|split]].
      * destruct H as [(_ & -> & _) | (_ & -> & _)]; now left.
      * now rewrite Hthis.
      * now rewrite Hthis.
      * intros config2. unfold begin. now rewrite Hthis.
    + discriminate.
Qed.

(** A fresh object, [begin] with [model_id = -1]: the factory receives the
    stored identifier 0 and the argument is stored. *)
Lemma begin_model_id_witness :
  exists w',
    begin demo_env demo_mem (mkConfig (-1) 0 nullptr) fresh_world =
      (Expected.mk true "", w', [EvCreate 0]) /\
    _config (this w') = mkConfig (-1) 0 nullptr /\
    begin demo_env demo_mem demo_config w' = (failure "Already initialized", w', []).
Proof.
  destruct (begin demo_env demo_mem (mkConfig (-1) 0 nullptr) fresh_world)
    as [[e w'] tr] eqn:Hb.
  destruct (begin_model_id _ _ _ _ _ _ _ Hb) as (_ & Hok & _).
  assert (He : e = Expected.mk true "" /\ tr = [EvCreate 0]).
  { vm_compute in Hb. injection Hb as <- _ <-. now split. }
  destruct He as [-> ->].
  destruct (Hok eq_refl) as (_ & Hcfg & _ & Hagain).
  exists w'. repeat split.
  - exact Hcfg.
  - apply Hagain.
Defined.

(** C8 (as stated). An object whose stored [model_id] is -1: the factory
    receives 0, not the stored -1; and once [begin] has succeeded with
    [model_id = -1] as its argument, no later call of [begin], whatever its
    argument, calls the factory. *)
Lemma begin_model_id_counterexample :
  let w := mkWorld (set_config fresh_core (mkConfig (-1) 0 nullptr)) false None [] in
  let r := begin demo_env demo_mem demo_config w in
  snd r = [EvCreate 0] /\
  ~ (forall id, In (EvCreate id) (snd r) -> id = model_id (_config (this w))) /\
  let r1 := begin demo_env demo_mem (mkConfig (-1) 0 nullptr) fresh_world in
  Expected.success (fst (fst r1)) = true /\
  forall config2 id,
    ~ In (EvCreate id) (snd (begin demo_env demo_mem config2 (snd (fst r1)))).
Proof.
  cbv zeta. split; [reflexivity|]. split.
  - intros H. specialize (H 0 (or_introl eq_refl)). discriminate H.
  - split; [reflexivity|].
    intros config2 id.
    destruct (begin demo_env demo_mem (mkConfig (-1) 0 nullptr) fresh_world)
      as [[e w'] tr] eqn:Hb.
    destruct (begin_outcome _ _ _ _ _ _ _ Hb)
      as [(_ & Hf & _) | [(_ & _ & Hf & _) | (m & _ & _ & _ & Hthis & _)]].
    + vm_compute in Hb. injection Hb as <- _ _. discriminate.
    + vm_compute in Hb. injection Hb as <- _ _. discriminate.
    + simpl. unfold begin. rewrite Hthis. simpl. intros [].
Qed.

(** ** [Frame::fromCameraFrame] *)

(** C7 (as amended). For a camera frame with a non-null buffer the frame
    returned has the format mapped from the camera format ([kUNKNOWN] for the
    formats without a counterpart), the width and the height of the camera
    frame reduced modulo 2^16 (hence the same when they are below 65536),
    the length, the buffer and the timestamp of the camera frame, and
    orientation 0. *)
Theorem fromCameraFrame_fields (f : Frame.t) (fb : camera_fb_t.t) :
  camera_fb_t.buf fb <> nullptr ->
  camera_fb_well_typed fb ->
  let r := fromCameraFrame f (Some fb) in
  Frame.format r =
    match camera_fb_t.format fb with
    | PIXFORMAT_RGB888 => kRGB888
    | PIXFORMAT_RGB565 => kRGB565
    | PIXFORMAT_GRAYSCALE => kGRAY8
    | PIXFORMAT_JPEG => kJPEG
    | PIXFORMAT_YUV422 | PIXFORMAT_YUV420 | PIXFORMAT_RAW
    | PIXFORMAT_RGB444 | PIXFORMAT_RGB555 => kUNKNOWN
    end /\
  Frame.width r = camera_fb_t.width fb mod 65536 /\
  Frame.height r = camera_fb_t.height fb mod 65536 /\
  (camera_fb_t.width fb < 65536 -> Frame.width r = camera_fb_t.width fb) /\
  (camera_fb_t.height fb < 65536 -> Frame.height r = camera_fb_t.height fb) /\
  Frame.size r = camera_fb_t.len fb /\
  Frame.data r = camera_fb_t.buf fb /\
  Frame.timestamp r = camera_fb_t.timestamp fb /\
  Frame.orientation r = 0.
Proof.
  intros Hbuf (Hlen & Hw & Hh) r. subst r. unfold fromCameraFrame.
  apply Z.eqb_neq in Hbuf. rewrite Hbuf.
  unfold size_t_range in *.
  cbn [Frame.format Frame.width Frame.height Frame.size Frame.data
       Frame.timestamp Frame.orientation].
  unfold uint16_t, uint32_t.
  change (2 ^ 16) with 65536. change (2 ^ 32) with 4294967296 in *.
  split; [now destruct (camera_fb_t.format fb)|].
  split; [reflexivity|]. split; [reflexivity|].
  split; [intros H; apply Z.mod_small; lia|].
  split; [intros H; apply Z.mod_small; lia|].
  split; [apply Z.mod_small; lia|].
  now repeat split.
Qed.

(** The 240 x 240 RGB565 frame of the camera. *)
Lemma fromCameraFrame_fields_witness :
  let r := fromCameraFrame empty_frame (Some demo_camera_fb) in
  Frame.format r = kRGB565 /\ Frame.width r = 240 /\ Frame.height r = 240 /\
  Frame.size r = 115200 /\ Frame.data r = 4096 /\ Frame.orientation r = 0.
Proof.
  assert (Hbuf : camera_fb_t.buf demo_camera_fb <> nullptr) by discriminate.
  assert (Hty : camera_fb_well_typed demo_camera_fb).
  { unfold camera_fb_well_typed, size_t_range. simpl. lia. }
  destruct (fromCameraFrame_fields empty_frame demo_camera_fb Hbuf Hty)
    as (Hf & _ & _ & Hw & Hh & Hs & Hd & _ & Ho).
  cbv zeta. split; [exact Hf|]. split; [apply Hw; simpl; lia|].
  split; [apply Hh; simpl; lia|]. split; [exact Hs|]. split; [exact Hd | exact Ho].
Defined.

(** C7 (as stated). A camera frame 65536 pixels wide: the width of the frame
    returned is 0. *)
Lemma fromCameraFrame_width_counterexample :
  camera_fb_t.buf wide_camera_fb <> nullptr /\
  camera_fb_well_typed wide_camera_fb /\
  Frame.width (fromCameraFrame empty_frame (Some wide_camera_fb)) = 0 /\
  Frame.width (fromCameraFrame empty_frame (Some wide_camera_fb))
    <> camera_fb_t.width wide_camera_fb.
Proof.
  split; [discriminate|]. split.
  - unfold camera_fb_well_typed, size_t_range. simpl. lia.
  - split; [reflexivity | discriminate].
Qed.

(** ** The checks of [invoke] *)

(** C9. When the object is not initialised, or the format of the frame is
    [kUNKNOWN], or its width or height is 0, or its size is 0, or its data
    pointer is null, [invoke] returns a failure whose message is that of the
    first of the five checks, in this order, that fails; the object and the
    statics are as before the call and nothing was called: no model run, no
    callback. *)
Theorem invoke_rejects (env : Env) (mem : Memory) (frame : Frame.t) (config : ptr)
    (user_context : ptr) (w : World) :
  _initialized (this w) = false \/ Frame.format frame = kUNKNOWN \/
  Frame.width frame = 0 \/ Frame.height frame = 0 \/
  Frame.size frame = 0 \/ Frame.data frame = nullptr ->
  exists msg,
    invoke env mem frame config user_context w = Some (Expected.mk false msg, w, []) /\
    msg =
      if negb (_initialized (this w)) then "Not initialized"%string
      else if Frame.format frame =? kUNKNOWN then "Invalid frame format"%string
      else if (Frame.width frame =? 0) || (Frame.height frame =? 0)
           then "Invalid frame dimensions"%string
      else if Frame.size frame =? 0 then "Invalid frame size"%string
      else "Invalid frame data"%string.
Proof.
  intros H. eexists. split; [|reflexivity].
  unfold invoke.
  destruct (negb (_initialized (this w))) eqn:Hi; [reflexivity|].
  destruct (Frame.format frame =? kUNKNOWN) eqn:Hf; [reflexivity|].
  destruct ((Frame.width frame =? 0) || (Frame.height frame =? 0)) eqn:Hd; [reflexivity|].
  destruct (Frame.size frame =? 0) eqn:Hs; [reflexivity|].
  destruct (Frame.data frame =? nullptr) eqn:Hp; [reflexivity|].
  exfalso.
  apply negb_false_iff in Hi. apply orb_false_iff in Hd. destruct Hd as [Hw Hh].
  apply Z.eqb_neq in Hf, Hw, Hh, Hs, Hp.
  destruct H as [H | [H | [H | [H | [H | H]]]]]; congruence.
Qed.

(** A frame of size 0 on an initialised object. *)
Lemma invoke_rejects_witness :
  invoke demo_env demo_mem empty_frame 64 7 (demo_world MA_MODEL_TYPE_YOLOV5) =
    Some (Expected.mk false "Invalid frame size", demo_world MA_MODEL_TYPE_YOLOV5, []).
Proof.
  destruct (invoke_rejects demo_env demo_mem empty_frame 64 7
              (demo_world MA_MODEL_TYPE_YOLOV5)
              (or_intror (or_intror (or_intror (or_intror (or_introl eq_refl))))))
    as (msg & Hinv & ->).
  exact Hinv.
Defined.

(** ** The stored [InvokeConfig] pointer *)

Lemma no_set_config_in_result_callback (ty : result_type) (c c' : SSCMAMicroCore) (u : ptr) :
  Forall (fun ev => is_set_config ev = false) (result_callback ty c c' u).
Proof.
  destruct ty; simpl;
    match goal with
    | |- context [called ?cb _ _ _] => destruct cb
    end; simpl; repeat constructor.
Qed.

Lemma no_set_config_in_perf_callback (cb : option callback) (perf : Perf.t) (u : ptr) :
  Forall (fun ev => is_set_config ev = false) (called cb EvPerfCallback perf u).
Proof.
  destruct cb; simpl; repeat constructor.
Qed.

(** What a call of [invoke] does to the stored configuration. *)
Lemma invoke_config_frame (env : Env) (mem : Memory) (frame : Frame.t) (config : ptr)
    (u : ptr) (w : World) (e : Expected.t) (w' : World) (tr : list event) :
  invoke env mem frame config u w = Some (e, w', tr) ->
  (~ accepted w frame -> w' = w /\ tr = []) /\
  (accepted w frame ->
     invoke_config (_config (this w')) = effective_invoke_config w config /\
     model_id (_config (this w')) = model_id (_config (this w)) /\
     algorithm_id (_config (this w')) = algorithm_id (_config (this w))) /\
  (config = nullptr ->
     _config (this w') = _config (this w) /\
     Forall (fun ev => is_set_config ev = false) tr).
Proof.
  intros Hinv. unfold accepted.
  destruct (first_failing_check w frame) as [msg|] eqn:Hchk.
  { rewrite (invoke_rejected _ _ _ _ _ _ _ Hchk) in Hinv.
    injection Hinv as _ <- <-. split; [|split].
    - now split.
    - intros [H _]. discriminate.
    - intros _. split; [reflexivity | constructor]. }
  destruct (frame_to_img frame) as [img|] eqn:Himg.
  2:{ rewrite (invoke_unconverted _ _ _ _ _ _ Hchk Himg) in Hinv.
      injection Hinv as _ <- <-. split; [|split].
      - now split.
      - intros [_ H]. now contradiction H.
      - intros _. split; [reflexivity | constructor]. }
  destruct (ma_model w) as [m|] eqn:Hm.
  2:{ unfold first_failing_check, invoke in *.
      destruct (negb (_initialized (this w))); [discriminate|].
      destruct (Frame.format frame =? kUNKNOWN); [discriminate|].
      destruct ((Frame.width frame =? 0) || (Frame.height frame =? 0)); [discriminate|].
      destruct (Frame.size frame =? 0); [discriminate|].
      destruct (Frame.data frame =? nullptr); [discriminate|].
      rewrite Himg, Hm in Hinv. discriminate. }
  destruct (invoke_outcome env mem frame config u w img m Hchk Himg Hm)
    as (c1 & m1 & tr0 & Hover & H).
  destruct (override_config_spec mem config w m)
    as (c1' & m1' & tr0' & Hover' & Hp & _ & _ & _ & _ & _ & _ & _ & Hnn & Hn).
  rewrite Hover in Hover'. injection Hover' as <- <- <-.
  assert (Hids : model_id (_config c1) = model_id (_config (this w)) /\
                 algorithm_id (_config c1) = algorithm_id (_config (this w))).
  { destruct (Z.eq_dec config nullptr) as [E | E].
    - destruct (Hn E) as (-> & _). now split.
    - destruct (Hnn E) as (-> & _). now split. }
  assert (Hfinal : _config (this w') = _config c1 /\
                   (config = nullptr -> Forall (fun ev => is_set_config ev = false) tr)).
  { destruct (result_type_of (branch_of (Model.type m))) as [ty|].
    - destruct H as [(ret & mr & _ & _ & H) | (c2 & mr & _ & Hst & H)];
        rewrite H in Hinv; injection Hinv as _ <- <-; simpl.
      + split; [reflexivity|]. intros E. destruct (Hn E) as (_ & _ & ->).
        repeat constructor.
      + destruct (stores_frame ty c1 c2 Hst) as (_ & Hcfg & _).
        split; [assumption|]. intros E. destruct (Hn E) as (_ & _ & ->). simpl.
        constructor; [reflexivity|]. apply Forall_app. split.
        * apply no_set_config_in_result_callback.
        * apply no_set_config_in_perf_callback.
    - rewrite H in Hinv. injection Hinv as _ <- <-. simpl.
      split; [reflexivity|]. intros E. destruct (Hn E) as (_ & _ & ->). simpl.
      apply no_set_config_in_perf_callback. }
  destruct Hfinal as [Hcfg Hev]. split; [|split].
  - intros Hna. exfalso. apply Hna. split; [reflexivity | discriminate].
  - intros _. rewrite Hcfg. destruct Hids. now repeat split.
  - intros E. split; [|now apply Hev].
    rewrite Hcfg. destruct (Hn E) as (-> & _). reflexivity.
Qed.

(** C10 (as amended). A call of [invoke] with a non-null [InvokeConfig] that
    is accepted (the five checks pass and the format is converted) stores
    the pointer passed, whether the model run then succeeds or not; a call
    that is not accepted leaves everything as it was; a call without an
    explicit configuration, and so any run of such calls, keeps the stored
    configuration, uses the stored pointer as the one in effect (its [top_k]
    is read through it at each call), and makes no [setConfig] call. *)
Theorem invoke_config_persists (env : Env) (mem : Memory) :
  (forall frame config u w m,
     config <> nullptr -> accepted w frame -> ma_model w = Some m ->
     exists e w' tr,
       invoke env mem frame config u w = Some (e, w', tr) /\
       invoke_config (_config (this w')) = config) /\
  (forall frame config u w e w' tr,
     ~ accepted w frame ->
     invoke env mem frame config u w = Some (e, w', tr) ->
     w' = w /\ tr = []) /\
  (forall frame u w e w' tr,
     invoke env mem frame nullptr u w = Some (e, w', tr) ->
     _config (this w') = _config (this w) /\
     effective_invoke_config w nullptr = invoke_config (_config (this w)) /\
     Forall (fun ev => is_set_config ev = false) tr) /\
  (forall calls w w' tr,
     invoke_all env mem calls w = Some (w', tr) ->
     _config (this w') = _config (this w) /\
     Forall (fun ev => is_set_config ev = false) tr).
Proof.
  split; [|split; [|split]].
  - intros frame config u w m Hc Hacc Hm.
    destruct Hacc as [Hchk Himg].
    destruct (frame_to_img frame) as [img|] eqn:Hi; [|contradiction].
    destruct (invoke_outcome env mem frame config u w img m Hchk Hi Hm)
      as (c1 & m1 & tr0 & _ & H).
    assert (Hex : exists e w' tr, invoke env mem frame config u w = Some (e, w', tr)).
    { destruct (result_type_of (branch_of (Model.type m))) as [ty|].
      - destruct H as [(ret & mr & _ & _ & H) | (c2 & mr & _ & _ & H)];
          rewrite H; do 3 eexists; reflexivity.
      - rewrite H. do 3 eexists. reflexivity. }
    destruct Hex as (e & w' & tr & Hinv). exists e, w', tr. split; [assumption|].
    destruct (invoke_config_frame _ _ _ _ _ _ _ _ _ Hinv) as (_ & Hacc & _).
    destruct Hacc as (Hp & _).
    { split; [assumption|]. rewrite Hi. discriminate. }
    rewrite Hp. unfold effective_invoke_config.
    apply Z.eqb_neq in Hc. now rewrite Hc.
  - intros frame config u w e w' tr Hna Hinv.
    destruct (invoke_config_frame _ _ _ _ _ _ _ _ _ Hinv) as (H & _). now apply H.
  - intros frame u w e w' tr Hinv.
    destruct (invoke_config_frame _ _ _ _ _ _ _ _ _ Hinv) as (_ & _ & H).
    destruct (H eq_refl) as [Hcfg Hev]. repeat split; assumption.
  - induction calls as [|[frame u] calls IH]; intros w w' tr Hall; simpl in Hall.
    + injection Hall as <- <-. split; [reflexivity | constructor].
    + destruct (invoke env mem frame nullptr u w) as [[[e w1] tr1]|] eqn:Hinv;
        [|discriminate].
      destruct (invoke_all env mem calls w1) as [[w2 tr2]|] eqn:Hrest; [|discriminate].
      injection Hall as <- <-.
      destruct (invoke_config_frame _ _ _ _ _ _ _ _ _ Hinv) as (_ & _ & H).
      destruct (H eq_refl) as [Hcfg Hev].
      destruct (IH _ _ _ Hrest) as [Hcfg2 Hev2].
      split; [congruence|]. apply Forall_app. now split.
Qed.

(** A detector: one call with the configuration at address 64 ([top_k = 1]),
    then two calls without configuration: the pointer stored is still 64 and
    the last call has stored one box. *)
Lemma invoke_config_persists_witness :
  exists e w1 tr1 w2 tr2,
    invoke demo_env demo_mem demo_frame 64 7 (demo_world MA_MODEL_TYPE_YOLOV5) =
      Some (e, w1, tr1) /\
    invoke_config (_config (this w1)) = 64 /\
    invoke_all demo_env demo_mem [(demo_frame, 7); (demo_frame, 8)] w1 = Some (w2, tr2) /\
    invoke_config (_config (this w2)) = 64 /\
    List.length (_boxes (this w2)) = 1%nat.
Proof.
  destruct (invoke_config_persists demo_env demo_mem) as (Hset & _ & _ & Hall).
  assert (Hc : 64 <> nullptr) by discriminate.
  assert (Hacc : accepted (demo_world MA_MODEL_TYPE_YOLOV5) demo_frame).
  { split; [reflexivity | discriminate]. }
  destruct (Hset demo_frame 64 7 (demo_world MA_MODEL_TYPE_YOLOV5)
              (demo_model MA_MODEL_TYPE_YOLOV5) Hc Hacc eq_refl)
    as (e & w1 & tr1 & Hinv & Hp).
  destruct (invoke_all demo_env demo_mem [(demo_frame, 7); (demo_frame, 8)] w1)
    as [[w2 tr2]|] eqn:Hrun.
  2:{ vm_compute in Hinv. injection Hinv as _ <- _. vm_compute in Hrun. discriminate. }
  destruct (Hall _ _ _ _ Hrun) as [Hcfg _].
  exists e, w1, tr1, w2, tr2. repeat split; try assumption.
  - now rewrite Hcfg.
  - vm_compute in Hinv. injection Hinv as _ <- _.
    vm_compute in Hrun. injection Hrun as <- _. reflexivity.
Defined.

(** C10 (as stated). A call with the configuration at address 64
    ([top_k = 1]) on a frame of size 0: the call fails its checks and the
    pointer stored stays null; the next call, without configuration, stores
    all three boxes.  And after an accepted call with that configuration,
    once its owner has changed its [top_k] to 2, a call without configuration
    stores two boxes: what stays in effect is the pointer, not the value
    passed. *)
Lemma invoke_config_counterexample :
  64 <> nullptr /\
  (exists e w1 tr1,
     invoke demo_env demo_mem empty_frame 64 7 (demo_world MA_MODEL_TYPE_YOLOV5) =
       Some (e, w1, tr1) /\
     invoke_config (_config (this w1)) <> 64 /\
     exists e2 w2 tr2,
       invoke demo_env demo_mem demo_frame nullptr 7 w1 = Some (e2, w2, tr2) /\
       List.length (_boxes (this w2)) = 3%nat) /\
  (exists e w1 tr1,
     invoke demo_env demo_mem demo_frame 64 7 (demo_world MA_MODEL_TYPE_YOLOV5) =
       Some (e, w1, tr1) /\
     top_k (demo_mem 64) = 1 /\
     exists e2 w2 tr2,
       invoke demo_env demo_mem_changed demo_frame nullptr 7 w1 = Some (e2, w2, tr2) /\
       List.length (_boxes (this w2)) = 2%nat).
Proof.
  split; [discriminate|]. split.
  - do 3 eexists. split; [reflexivity|]. split; [discriminate|].
    do 3 eexists. split; reflexivity.
  - do 3 eexists. split; [reflexivity|]. split; [reflexivity|].
    do 3 eexists. split; reflexivity.
Qed.

(** * Further properties of the translation unit *)

(** ** An initialised object has a model *)

Lemma invoke_defined (env : Env) (mem : Memory) (frame : Frame.t) (config : ptr)
    (u : ptr) (w : World) :
  has_model w -> invoke env mem frame config u w <> None.
Proof.
  intros Hw.
  destruct (first_failing_check w frame) as [msg|] eqn:Hchk.
  { now rewrite (invoke_rejected _ _ _ _ _ _ _ Hchk). }
  destruct (frame_to_img frame) as [img|] eqn:Himg.
  2:{ now rewrite (invoke_unconverted _ _ _ _ _ _ Hchk Himg). }
  assert (Hinit : _initialized (this w) = true).
  { unfold first_failing_check in Hchk.
    destruct (_initialized (this w)); [reflexivity | discriminate]. }
  destruct (ma_model w) as [m|] eqn:Hm; [|now elim (Hw Hinit)].
  destruct (invoke_outcome env mem frame config u w img m Hchk Himg Hm)
    as (c1 & m1 & tr0 & _ & H).
  destruct (result_type_of (branch_of (Model.type m))) as [ty|].
  - destruct H as [(ret & mr & _ & _ & ->) | (c2 & mr & _ & _ & ->)]; discriminate.
  - rewrite H. discriminate.
Qed.

(** The world a call of [invoke] leaves: the one it found, or one with a
    model. *)
Lemma invoke_world (env : Env) (mem : Memory) (frame : Frame.t) (config : ptr)
    (u : ptr) (w : World) (e : Expected.t) (w' : World) (tr : list event) :
  invoke env mem frame config u w = Some (e, w', tr) ->
  _initialized (this w') = _initialized (this w) /\
  ma_engine w' = ma_engine w /\ models w' = models w /\
  (w' = w \/ ma_model w' <> None).
Proof.
  intros Hinv.
  destruct (first_failing_check w frame) as [msg|] eqn:Hchk.
  { rewrite (invoke_rejected _ _ _ _ _ _ _ Hchk) in Hinv.
    injection Hinv as _ <- _. repeat split. now left. }
  destruct (frame_to_img frame) as [img|] eqn:Himg.
  2:{ rewrite (invoke_unconverted _ _ _ _ _ _ Hchk Himg) in Hinv.
      injection Hinv as _ <- _. repeat split. now left. }
  destruct (ma_model w) as [m|] eqn:Hm.
  2:{ unfold first_failing_check, invoke in *.
      destruct (negb (_initialized (this w))); [discriminate|].
      destruct (Frame.format frame =? kUNKNOWN); [discriminate|].
      destruct ((Frame.width frame =? 0) || (Frame.height frame =? 0)); [discriminate|].
      destruct (Frame.size frame =? 0); [discriminate|].
      destruct (Frame.data frame =? nullptr); [discriminate|].
      rewrite Himg, Hm in Hinv. discriminate. }
  destruct (invoke_outcome env mem frame config u w img m Hchk Himg Hm)
    as (c1 & m1 & tr0 & Hover & H).
  destruct (override_config_spec mem config w m)
    as (c1' & m1' & tr0' & Hover' & _ & _ & Hinit & _).
  rewrite Hover in Hover'. injection Hover' as <- <- <-.
  destruct (result_type_of (branch_of (Model.type m))) as [ty|].
  - destruct H as [(ret & mr & _ & _ & H) | (c2 & mr & _ & Hst & H)];
      rewrite H in Hinv; injection Hinv as _ <- _; simpl.
    + repeat split; [assumption | right; discriminate].
    + destruct (stores_frame ty c1 c2 Hst) as (Hi & _).
      repeat split; [congruence | right; discriminate].
  - rewrite H in Hinv. injection Hinv as _ <- _. simpl.
    repeat split; [assumption | right; discriminate].
Qed.

(** The scan appends to the entries accumulated so far. *)
Lemma scan_models_app (env : Env) (n : nat) (i id : Z) (l : list ma_model_t.t) :
  scan_models env n i id l = l ++ scan_models env n i id [].
Proof.
  revert i id l. induction n as [|n IH]; intros i id l; simpl.
  - now rewrite app_nil_r.
  - destruct (negb (flash_word env i =? 0x54464C33)).
    + apply IH.
    + rewrite (IH _ _ (l ++ _)), (IH _ _ [_]), <- app_assoc. reflexivity.
Qed.

(** The statics [begin] leaves, by the way it ends. *)
Lemma begin_world (env : Env) (mem : Memory) (config : Config) (w : World)
    (e : Expected.t) (w' : World) (tr : list event) :
  begin env mem config w = (e, w', tr) ->
  (Expected.success e = true ->
     _initialized (this w') = true /\ ma_model w' <> None /\ ma_engine w' = true) /\
  (Expected.success e = false ->
     this w' = this w /\
     (w' = w \/ _initialized (this w) = false)) /\
  (models w' = models w \/
   exists partition,
     find_partition env = Some partition /\
     spi_flash_mmap env = ESP_OK env /\
     models w' =
       models w ++ scan_models env (scan_iterations (part_size partition)) 0 0 []).
Proof.
  unfold begin. intros H.
  destruct (_initialized (this w)) eqn:Hinit.
  { injection H as <- <- <-. repeat split; try discriminate; auto. }
  destruct (negb (engine_init env =? MA_OK env)).
  { injection H as <- <- <-. repeat split; try discriminate; auto. }
  destruct (find_partition env) as [partition|].
  2:{ injection H as <- <- <-. repeat split; try discriminate; auto. }
  destruct (negb (spi_flash_mmap env =? ESP_OK env)) eqn:Hmap.
  { injection H as <- <- <-. repeat split; try discriminate; auto. }
  apply negb_false_iff, Z.eqb_eq in Hmap.
  assert (Hscan : forall c me mo,
             models (mkWorld c me mo
                       (scan_models env (scan_iterations (part_size partition)) 0 0
                          (models w))) = models w \/
             exists p,
               Some partition = Some p /\ spi_flash_mmap env = ESP_OK env /\
               models (mkWorld c me mo
                         (scan_models env (scan_iterations (part_size partition)) 0 0
                            (models w))) =
                 models w ++ scan_models env (scan_iterations (part_size p)) 0 0 []).
  { intros c me mo. right. exists partition. simpl.
    rewrite scan_models_app at 1. now repeat split. }
  destruct (find_model env config _) as [it|].
  2:{ injection H as <- <- <-. repeat split; try discriminate; auto. }
  destruct (negb (engine_load env (ma_model_t.addr it) =? MA_OK env)).
  { injection H as <- <- <-. repeat split; try discriminate; auto. }
  destruct (ModelFactory_create env (factory_id (this w))) as [m|].
  2:{ injection H as <- <- <-. repeat split; try discriminate; auto. }
  destruct (negb (invoke_config config =? nullptr)); simpl in H;
    injection H as <- <- <-; repeat split; try discriminate; auto.
Qed.

Lemma call_has_model (env : Env) (w w' : World) :
  sketch_call env w w' -> has_model w -> has_model w'.
Proof.
  unfold has_model. intros Hcall Hw.
  destruct Hcall as [mem config w e w' tr Hb | mem frame config u w e w' tr Hinv
                    | cb w | cb w | cb w | cb w | cb w]; try exact Hw.
  - destruct (begin_world _ _ _ _ _ _ _ Hb) as (Hok & Hfail & _).
    destruct (Expected.success e).
    + intros _. now destruct (Hok eq_refl) as (_ & Hm & _).
    + destruct (Hfail eq_refl) as (Hthis & [-> | Hinit]); [exact Hw|].
      rewrite Hthis, Hinit. discriminate.
  - destruct (invoke_world _ _ _ _ _ _ _ _ _ Hinv) as (Hi & _ & _ & [-> | Hm]);
      [exact Hw | now intros _].
Qed.

(** X1. From an object that has a model whenever it is initialised (one not
    yet initialised, in particular), no sequence of calls of [begin],
    [invoke] and the registrations leads to a state in which [invoke]
    dereferences a null model: the property is kept by every call and under
    it [invoke] always returns. *)
Theorem invoke_never_null_model (env : Env) (w0 w : World) :
  has_model w0 ->
  sketch_calls env w0 w ->
  has_model w /\
  forall mem frame config user_context,
    exists e w' tr, invoke env mem frame config user_context w = Some (e, w', tr).
Proof.
  intros H0 Hcalls.
  assert (Hw : has_model w).
  { induction Hcalls as [|w w1 w2 _ IH Hcall]; [assumption|].
    eapply call_has_model; eauto. }
  split; [assumption|].
  intros mem frame config u.
  pose proof (invoke_defined env mem frame config u w Hw) as Hd.
  destruct (invoke env mem frame config u w) as [[[e w'] tr]|]; [|contradiction].
  now exists e, w', tr.
Qed.

(** A fresh object, a failed call of [invoke], [begin], a registration and a
    call of [invoke]: the next [invoke] returns. *)
Lemma invoke_never_null_model_witness :
  exists w e w' tr,
    sketch_calls demo_env fresh_world w /\
    _initialized (this w) = true /\
    invoke demo_env demo_mem demo_frame 64 7 w = Some (e, w', tr).
Proof.
  destruct (begin demo_env demo_mem demo_config fresh_world) as [[e1 w1] tr1] eqn:Hb.
  set (w2 := mkWorld (registerBoxesCallback (Some 1) (this w1))
                     (ma_engine w1) (ma_model w1) (models w1)).
  assert (Hcalls : sketch_calls demo_env fresh_world w2).
  { eapply calls_more; [|apply call_registerBoxes].
    eapply calls_more; [|eapply call_begin; exact Hb].
    eapply calls_more; [apply calls_none|].
    eapply (call_invoke demo_env demo_mem demo_frame nullptr 0). reflexivity. }
  assert (H0 : has_model fresh_world) by (intros H; discriminate H).
  destruct (invoke_never_null_model demo_env fresh_world w2 H0 Hcalls) as [_ Hinv].
  destruct (Hinv demo_mem demo_frame 64 7) as (e & w' & tr & H).
  exists w2, e, w', tr. repeat split; try assumption.
  subst w2. vm_compute in Hb. injection Hb as _ <- _. reflexivity.
Defined.

(** ** The scan of the flash and the lookup of the model *)

Lemma block_offsets_succ (n : nat) (i : Z) :
  block_offsets (S n) i = i :: block_offsets n (i + 4096).
Proof.
  unfold block_offsets. cbn [seq map]. f_equal; [lia|].
  rewrite <- seq_shift, map_map. apply map_ext. intros k.
  rewrite Nat2Z.inj_succ. lia.
Qed.

Lemma scan_models_from_empty (env : Env) (n : nat) (i id : Z) :
  let entries := scan_models env n i id [] in
  map ma_model_t.addr entries = filter (has_magic env) (block_offsets n i) /\
  map ma_model_t.id entries =
    map (fun k => id + 1 + Z.of_nat k) (seq 0 (List.length entries)) /\
  models_undefined entries.
Proof.
  revert i id. induction n as [|n IH]; intros i id; cbv zeta.
  - simpl. repeat split. constructor.
  - rewrite block_offsets_succ. simpl. unfold has_magic at 1.
    destruct (flash_word env i =? 0x54464C33); simpl.
    + rewrite scan_models_app.
      destruct (IH (i + 4096) (id + 1)) as (Ha & Hi & Hu).
      simpl. rewrite Ha, Hi. split; [reflexivity|]. split.
      * f_equal; [lia|]. rewrite <- seq_shift, map_map. apply map_ext. intros k.
        rewrite Nat2Z.inj_succ. lia.
      * constructor; [reflexivity | assumption].
    + apply IH.
Qed.

(** X2. The scan of the mapped partition keeps the entries already in
    [models] and appends one entry for each 4096-byte block that carries the
    magic number, in the order of the blocks: the addresses of the new
    entries are the offsets of those blocks, their identifiers count up from
    the one given, and all have the undefined model type. *)
Theorem scan_models_entries (env : Env) (n : nat) (i id : Z) (models : list ma_model_t.t) :
  exists entries,
    scan_models env n i id models = models ++ entries /\
    map ma_model_t.addr entries = filter (has_magic env) (block_offsets n i) /\
    map ma_model_t.id entries =
      map (fun k => id + 1 + Z.of_nat k) (seq 0 (List.length entries)) /\
    models_undefined entries.
Proof.
  exists (scan_models env n i id []). split.
  - apply scan_models_app.
  - apply scan_models_from_empty.
Qed.

Lemma find_undefined (f : ma_model_t.t -> bool) (l : list ma_model_t.t) :
  (forall a b, In a l -> In b l -> f a = f b) ->
  forall it, find f l = Some it -> hd_error l = Some it.
Proof.
  destruct l as [|a l]; simpl; [discriminate|].
  intros Hf it. destruct (f a) eqn:Ha; [trivial|].
  intros Hfind. apply find_some in Hfind. destruct Hfind as [Hin Hit].
  rewrite (Hf a it) in Ha; [congruence | now left | now right].
Qed.

Lemma find_model_undefined (env : Env) (config : Config) (l : list ma_model_t.t) :
  models_undefined l ->
  (forall it, find_model env config l = Some it -> hd_error l = Some it) /\
  (0 <= model_id config ->
   model_id config <> model_type_value env MA_MODEL_TYPE_UNDEFINED ->
   find_model env config l = None).
Proof.
  intros Hl. unfold models_undefined in Hl. rewrite Forall_forall in Hl.
  unfold find_model. split.
  - intros it. destruct (0 <=? model_id config); [|trivial].
    apply find_undefined. intros a b Ha Hb. now rewrite (Hl a Ha), (Hl b Hb).
  - intros Hid Hne. apply Z.leb_le in Hid. rewrite Hid.
    destruct (find _ l) as [it|] eqn:Hfind; [|reflexivity].
    apply find_some in Hfind. destruct Hfind as [Hin Hit].
    rewrite (Hl it Hin) in Hit. apply Z.eqb_eq in Hit. congruence.
Qed.

(** X3. All entries of [models] having the undefined type, as [begin] makes
    them: [begin] keeps it so and only ever appends to [models]; the lookup
    yields the first entry of [models] or nothing; and with a [model_id]
    that is non-negative and differs from the value of the undefined type,
    [begin] fails without reaching the model factory. *)
Theorem begin_model_lookup (env : Env) (mem : Memory) (config : Config) (w : World)
    (e : Expected.t) (w' : World) (tr : list event) :
  models_undefined (models w) ->
  begin env mem config w = (e, w', tr) ->
  models_undefined (models w') /\
  (exists entries, models w' = models w ++ entries) /\
  (forall it, find_model env config (models w') = Some it ->
              hd_error (models w') = Some it) /\
  (0 <= model_id config ->
   model_id config <> model_type_value env MA_MODEL_TYPE_UNDEFINED ->
   Expected.success e = false /\ tr = []).
Proof.
  intros Hw Hb.
  assert (Hw' : models_undefined (models w') /\
                exists entries, models w' = models w ++ entries).
  { destruct (begin_world _ _ _ _ _ _ _ Hb) as (_ & _ & [-> | (p & _ & _ & ->)]).
    - split; [assumption|]. exists []. now rewrite app_nil_r.
    - split; [|eexists; reflexivity].
      apply Forall_app. split; [assumption|]. apply scan_models_from_empty. }
  destruct Hw' as [Hu Happ]. split; [assumption|]. split; [assumption|]. split.
  - apply find_model_undefined; assumption.
  - intros Hid Hne. unfold begin in Hb.
    destruct (_initialized (this w)); [injection Hb as <- _ <-; now split|].
    destruct (negb (engine_init env =? MA_OK env)); [injection Hb as <- _ <-; now split|].
    destruct (find_partition env) as [partition|]; [|injection Hb as <- _ <-; now split].
    destruct (negb (spi_flash_mmap env =? ESP_OK env));
      [injection Hb as <- _ <-; now split|].
    assert (Hscan : models_undefined
                      (scan_models env (scan_iterations (part_size partition)) 0 0
                         (models w))).
    { rewrite scan_models_app. apply Forall_app. split; [assumption|].
      apply scan_models_from_empty. }
    destruct (find_model_undefined env config _ Hscan) as [_ Hnone].
    rewrite (Hnone Hid Hne) in Hb. injection Hb as <- _ <-. now split.
Qed.

(** One model in flash and [model_id = 5]: "Model not found". *)
Lemma begin_model_lookup_witness :
  exists w',
    begin demo_env demo_mem (mkConfig 5 0 nullptr) fresh_world =
      (failure "Model not found", w', []).
Proof.
  destruct (begin demo_env demo_mem (mkConfig 5 0 nullptr) fresh_world)
    as [[e w'] tr] eqn:Hb.
  assert (H0 : models_undefined (models fresh_world)) by constructor.
  destruct (begin_model_lookup _ _ _ _ _ _ _ H0 Hb) as (_ & _ & _ & H).
  destruct H as [_ ->]; [simpl; lia | discriminate |].
  exists w'. vm_compute in Hb. injection Hb as <- _. reflexivity.
Defined.

(** X4. [begin] leaves the registered callbacks and the stored results as
    they are, whether it succeeds or fails; when it fails the whole object
    is unchanged, so that it may be called again. *)
Theorem begin_keeps_callbacks (env : Env) (mem : Memory) (config : Config) (w : World)
    (e : Expected.t) (w' : World) (tr : list event) :
  begin env mem config w = (e, w', tr) ->
  _boxes_callback (this w') = _boxes_callback (this w) /\
  _classes_callback (this w') = _classes_callback (this w) /\
  _points_callback (this w') = _points_callback (this w) /\
  _keypoints_callback (this w') = _keypoints_callback (this w) /\
  _perf_callback (this w') = _perf_callback (this w) /\
  _boxes (this w') = _boxes (this w) /\
  _classes (this w') = _classes (this w) /\
  _points (this w') = _points (this w) /\
  _keypoints (this w') = _keypoints (this w) /\
  _perf (this w') = _perf (this w) /\
  (Expected.success e = false -> this w' = this w).
Proof.
  intros Hb.
  destruct (begin_outcome _ _ _ _ _ _ _ Hb)
    as [(_ & Hf & ->) | [(_ & _ & Hf & -> & _) | (m & _ & _ & -> & -> & _)]];
    repeat split; discriminate.
Qed.

(** Callbacks registered before [begin] are there after it. *)
Lemma begin_keeps_callbacks_witness :
  let w := mkWorld (registerBoxesCallback (Some 1) fresh_core) false None [] in
  _boxes_callback (this (snd (fst (begin demo_env demo_mem demo_config w)))) = Some 1.
Proof.
  cbv zeta.
  destruct (begin demo_env demo_mem demo_config
              (mkWorld (registerBoxesCallback (Some 1) fresh_core) false None []))
    as [[e w'] tr] eqn:Hb.
  destruct (begin_keeps_callbacks _ _ _ _ _ _ _ Hb) as (H & _).
  simpl. rewrite H. reflexivity.
Defined.

(** ** What [invoke] changes *)

(** The object and the model a successful call leaves, block by block. *)
Lemma invoke_success_stored (env : Env) (mem : Memory) (frame : Frame.t) (config : ptr)
    (u : ptr) (w : World) (e : Expected.t) (w' : World) (tr : list event) :
  invoke env mem frame config u w = Some (e, w', tr) ->
  Expected.success e = true ->
  exists img m c1 m1 tr0 m',
    frame_to_img frame = Some img /\
    ma_model w = Some m /\
    override_config mem config (this w) m = (c1, m1, tr0) /\
    ma_model w' = Some m' /\
    match branch_of (Model.type m) with
    | PointsBranch =>
        Model_run env m1 img = (MA_OK env, m') /\
        this w' =
          set_perf
            (set_points c1
               (map point_of_result
                  (if top_k_active mem c1
                   then vector_top_k env ma_point_t.score
                          (top_k (mem (invoke_config (_config c1))))
                          (Model.point_results m')
                   else Model.point_results m')))
            (perf_of_log (Model.perf m'))
    | ClassesBranch =>
        Model_run env m1 img = (MA_OK env, m') /\
        this w' =
          set_perf
            (set_classes c1
               (map class_of_result
                  (if top_k_active mem c1
                   then forward_list_top_k ma_class_t.score
                          (top_k (mem (invoke_config (_config c1))))
                          (Model.class_results m')
                   else Model.class_results m')))
            (perf_of_log (Model.perf m'))
    | BoxesBranch =>
        Model_run env m1 img = (MA_OK env, m') /\
        this w' =
          set_perf
            (set_boxes c1
               (map box_of_result
                  (if top_k_active mem c1
                   then forward_list_top_k ma_bbox_t.score
                          (top_k (mem (invoke_config (_config c1))))
                          (Model.bbox_results m')
                   else Model.bbox_results m')))
            (perf_of_log (Model.perf m'))
    | KeypointsBranch =>
        Model_run env m1 img = (MA_OK env, m') /\
        this w' =
          set_perf
            (set_keypoints c1
               (map keypoints_of_result
                  (if top_k_active mem c1
                   then vector_top_k env
                          (fun r => ma_bbox_t.score (ma_keypoint3f_t.box r))
                          (top_k (mem (invoke_config (_config c1))))
                          (Model.keypoint_results m')
                   else Model.keypoint_results m')))
            (perf_of_log (Model.perf m'))
    | DefaultBranch =>
        m' = m1 /\ this w' = set_perf c1 (perf_of_log (Model.perf m1))
    end.
Proof.
  intros Hinv Hok.
  destruct (invoke_success _ _ _ _ _ _ _ _ _ Hinv Hok)
    as (img & m & c1 & m1 & tr0 & c2 & m2 & tr1 & _ & Himg & Hm & Hover & Hd & -> & _).
  exists img, m, c1, m1, tr0, m2.
  split; [assumption|]. split; [assumption|]. split; [assumption|].
  split; [reflexivity|].
  destruct (override_config_spec mem config w m)
    as (c1' & m1' & tr0' & Hover' & _ & Hty & _).
  rewrite Hover in Hover'. injection Hover' as <- <- <-.
  rewrite dispatch_body, Hty in Hd.
  destruct (branch_of (Model.type m)); simpl in Hd |- *.
  - apply points_branch_break in Hd. destruct Hd as (Hrun & -> & _). now split.
  - apply classes_branch_break in Hd. destruct Hd as (Hrun & -> & _). now split.
  - apply boxes_branch_break in Hd. destruct Hd as (Hrun & -> & _). now split.
  - apply keypoints_branch_break in Hd. destruct Hd as (Hrun & -> & _). now split.
  - injection Hd as <- <- _. now split.
Qed.

(** The object a call that does not succeed leaves: the one it found, but
    for the pointer to the configuration. *)
Lemma invoke_failure_object (env : Env) (mem : Memory) (frame : Frame.t) (config : ptr)
    (u : ptr) (w : World) (e : Expected.t) (w' : World) (tr : list event) :
  invoke env mem frame config u w = Some (e, w', tr) ->
  Expected.success e = false ->
  this w' = this w \/ this w' = set_invoke_config (this w) config.
Proof.
  intros Hinv Hfail.
  destruct (first_failing_check w frame) as [msg|] eqn:Hchk.
  { rewrite (invoke_rejected _ _ _ _ _ _ _ Hchk) in Hinv.
    injection Hinv as _ <- _. now left. }
  destruct (frame_to_img frame) as [img|] eqn:Himg.
  2:{ rewrite (invoke_unconverted _ _ _ _ _ _ Hchk Himg) in Hinv.
      injection Hinv as _ <- _. now left. }
  destruct (ma_model w) as [m|] eqn:Hm.
  2:{ unfold first_failing_check, invoke in *.
      destruct (negb (_initialized (this w))); [discriminate|].
      destruct (Frame.format frame =? kUNKNOWN); [discriminate|].
      destruct ((Frame.width frame =? 0) || (Frame.height frame =? 0)); [discriminate|].
      destruct (Frame.size frame =? 0); [discriminate|].
      destruct (Frame.data frame =? nullptr); [discriminate|].
      rewrite Himg, Hm in Hinv. discriminate. }
  destruct (invoke_outcome env mem frame config u w img m Hchk Himg Hm)
    as (c1 & m1 & tr0 & Hover & H).
  destruct (override_config_spec mem config w m)
    as (c1' & m1' & tr0' & Hover' & _ & _ & _ & _ & _ & _ & _ & _ & Hnn & Hn).
  rewrite Hover in Hover'. injection Hover' as <- <- <-.
  assert (Hc1 : c1 = this w \/ c1 = set_invoke_config (this w) config).
  { destruct (Z.eq_dec config nullptr) as [E | E].
    - left. now destruct (Hn E).
    - right. now destruct (Hnn E). }
  destruct (result_type_of (branch_of (Model.type m))) as [ty|].
  - destruct H as [(ret & mr & _ & _ & H) | (c2 & mr & _ & _ & H)];
      rewrite H in Hinv; injection Hinv as <- <- _.
    + exact Hc1.
    + discriminate.
  - rewrite H in Hinv. injection Hinv as <- _ _. discriminate.
Qed.

(** X5. A call of [invoke] never changes the initialised flag, the
    registered callbacks, the [model_id] and [algorithm_id] stored, the
    engine or [models].  When it does not succeed, the four stored result
    lists and the stored timings are those of before the call; when it
    succeeds, the result lists of the types other than the one of the
    model's block are those of before the call. *)
Theorem invoke_keeps_other_results (env : Env) (mem : Memory) (frame : Frame.t)
    (config : ptr) (user_context : ptr) (w : World) (e : Expected.t) (w' : World)
    (tr : list event) (m : Model.t) :
  invoke env mem frame config user_context w = Some (e, w', tr) ->
  ma_model w = Some m ->
  (_initialized (this w') = _initialized (this w) /\
   _boxes_callback (this w') = _boxes_callback (this w) /\
   _classes_callback (this w') = _classes_callback (this w) /\
   _points_callback (this w') = _points_callback (this w) /\
   _keypoints_callback (this w') = _keypoints_callback (this w) /\
   _perf_callback (this w') = _perf_callback (this w) /\
   model_id (_config (this w')) = model_id (_config (this w)) /\
   algorithm_id (_config (this w')) = algorithm_id (_config (this w)) /\
   ma_engine w' = ma_engine w /\ models w' = models w) /\
  (Expected.success e = false ->
   _points (this w') = _points (this w) /\ _classes (this w') = _classes (this w) /\
   _boxes (this w') = _boxes (this w) /\ _keypoints (this w') = _keypoints (this w) /\
   _perf (this w') = _perf (this w)) /\
  (Expected.success e = true ->
   (branch_of (Model.type m) <> PointsBranch -> _points (this w') = _points (this w)) /\
   (branch_of (Model.type m) <> ClassesBranch -> _classes (this w') = _classes (this w)) /\
   (branch_of (Model.type m) <> BoxesBranch -> _boxes (this w') = _boxes (this w)) /\
   (branch_of (Model.type m) <> KeypointsBranch ->
    _keypoints (this w') = _keypoints (this w))).
Proof.
  intros Hinv Hm.
  destruct (invoke_world _ _ _ _ _ _ _ _ _ Hinv) as (_ & Heng & Hmod & _).
  destruct (Expected.success e) eqn:Hok.
  - destruct (invoke_success_stored _ _ _ _ _ _ _ _ _ Hinv Hok)
      as (img & m0 & c1 & m1 & tr0 & m' & _ & Hm0 & Hover & _ & H).
    rewrite Hm in Hm0. injection Hm0 as <-.
    destruct (override_config_spec mem config w m)
      as (c1' & m1' & tr0' & Hover' & _ & _ & _ & _ & _ & _ & _ & _ & Hnn & Hn).
    rewrite Hover in Hover'. injection Hover' as <- <- <-.
    assert (Hc1 : c1 = this w \/ c1 = set_invoke_config (this w) config).
    { destruct (Z.eq_dec config nullptr) as [E | E].
      - left. now destruct (Hn E).
      - right. now destruct (Hnn E). }
    destruct (branch_of (Model.type m));
      destruct H as [_ ->]; destruct Hc1 as [-> | ->]; simpl;
      (split; [now repeat split|]); (split; [discriminate|]); intros _;
      repeat split; intros Hb; try reflexivity; now elim Hb.
  - destruct (invoke_failure_object _ _ _ _ _ _ _ _ _ Hinv Hok) as [-> | ->]; simpl;
      (split; [now repeat split|]); (split; [now repeat split | discriminate]).
Qed.

(** A classifier: the boxes of an earlier detection stay stored. *)
Lemma invoke_keeps_other_results_witness :
  let w := mkWorld (set_boxes demo_core (map box_of_result demo_bboxes)) true
             (Some (demo_model MA_MODEL_TYPE_IMCLS)) [] in
  exists e w' tr,
    invoke demo_env demo_mem demo_frame nullptr 7 w = Some (e, w', tr) /\
    Expected.success e = true /\
    _boxes (this w') = map box_of_result demo_bboxes /\
    List.length (_classes (this w')) = 2%nat.
Proof.
  cbv zeta.
  destruct (invoke demo_env demo_mem demo_frame nullptr 7
              (mkWorld (set_boxes demo_core (map box_of_result demo_bboxes)) true
                 (Some (demo_model MA_MODEL_TYPE_IMCLS)) []))
    as [[[e w'] tr]|] eqn:Hinv; [|vm_compute in Hinv; discriminate].
  assert (Hok : Expected.success e = true).
  { vm_compute in Hinv. now injection Hinv as <- _ _. }
  destruct (invoke_keeps_other_results _ _ _ _ _ _ _ _ _ _ Hinv eq_refl)
    as (_ & _ & Hkeep).
  destruct (Hkeep Hok) as (_ & _ & Hboxes & _).
  exists e, w', tr. repeat split; try assumption.
  - rewrite Hboxes; [reflexivity | discriminate].
  - vm_compute in Hinv. now injection Hinv as _ <- _.
Defined.

(** ** Success and failure of [invoke] *)

From Stdlib Require DecimalPos DecimalZ.

Lemma branch_default_iff (type : ma_model_type_t) :
  branch_of type = DefaultBranch <-> result_type_of (branch_of type) = None.
Proof.
  destruct type; simpl; split; congruence.
Qed.

(** X6. With a model in place, [invoke] succeeds exactly when the five
    checks pass, the format of the frame is one of the four converted, and
    either the model type selects the [default] block or the run of the
    model (after the override of the configuration) returns [MA_OK]. *)
Theorem invoke_succeeds_iff (env : Env) (mem : Memory) (frame : Frame.t) (config : ptr)
    (user_context : ptr) (w : World) (m : Model.t) :
  ma_model w = Some m ->
  (exists e w' tr,
     invoke env mem frame config user_context w = Some (e, w', tr) /\
     Expected.success e = true) <->
  (exists img,
     first_failing_check w frame = None /\
     frame_to_img frame = Some img /\
     (branch_of (Model.type m) = DefaultBranch \/
      fst (Model_run env (snd (fst (override_config mem config (this w) m))) img)
        = MA_OK env)).
Proof.
  intros Hm. split.
  - intros (e & w' & tr & Hinv & Hok).
    destruct (invoke_success _ _ _ _ _ _ _ _ _ Hinv Hok)
      as (img & _ & _ & _ & _ & _ & _ & _ & Hchk & Himg & _).
    destruct (invoke_success_stored _ _ _ _ _ _ _ _ _ Hinv Hok)
      as (img' & m0 & c1 & m1 & tr0 & m' & Himg' & Hm0 & Hover & _ & H).
    rewrite Himg in Himg'. injection Himg' as <-.
    rewrite Hm in Hm0. injection Hm0 as <-.
    exists img. split; [assumption|]. split; [assumption|].
    rewrite Hover. simpl.
    destruct (branch_of (Model.type m)); try (right; destruct H as [-> _]; reflexivity).
    now left.
  - intros (img & Hchk & Himg & Hrun).
    destruct (invoke_outcome env mem frame config user_context w img m Hchk Himg Hm)
      as (c1 & m1 & tr0 & Hover & H).
    rewrite Hover in Hrun. simpl in Hrun.
    destruct (result_type_of (branch_of (Model.type m))) as [ty|] eqn:Hty.
    + destruct Hrun as [Hd | Hrun].
      { apply branch_default_iff in Hd. congruence. }
      destruct H as [(ret & mr & Hr & Hret & _) | (c2 & mr & _ & _ & ->)].
      * rewrite Hr in Hrun. simpl in Hrun. contradiction.
      * do 3 eexists. split; reflexivity.
    + rewrite H. do 3 eexists. split; reflexivity.
Qed.

(** Both directions at work: a detector on [demo_frame] succeeds, its run
    returning [MA_OK]. *)
Lemma invoke_succeeds_iff_witness :
  exists e w' tr,
    invoke demo_env demo_mem demo_frame nullptr 7 (demo_world MA_MODEL_TYPE_YOLOV5) =
      Some (e, w', tr) /\
    Expected.success e = true.
Proof.
  apply (invoke_succeeds_iff demo_env demo_mem demo_frame nullptr 7
           (demo_world MA_MODEL_TYPE_YOLOV5) (demo_model MA_MODEL_TYPE_YOLOV5) eq_refl).
  exists demo_img. repeat split. right. reflexivity.
Defined.

(** X7. When the frame is accepted, the model type selects one of the four
    typed blocks and the run of the model returns a code other than [MA_OK],
    [invoke] returns the failure "Failed to run model: " followed by the
    code; the object is the one the override of the configuration left, the
    model is the one the run left, and nothing was called after the run: no
    callback, and the stored results and timings are not assigned. *)
Theorem invoke_run_failure (env : Env) (mem : Memory) (frame : Frame.t) (config : ptr)
    (user_context : ptr) (w : World) (img : ma_img_t.t) (m : Model.t)
    (c1 : SSCMAMicroCore) (m1 : Model.t) (tr0 : list event) (ret : Z) (m' : Model.t) :
  first_failing_check w frame = None ->
  frame_to_img frame = Some img ->
  ma_model w = Some m ->
  branch_of (Model.type m) <> DefaultBranch ->
  override_config mem config (this w) m = (c1, m1, tr0) ->
  Model_run env m1 img = (ret, m') ->
  ret <> MA_OK env ->
  invoke env mem frame config user_context w =
    Some (Expected.mk false (String.append "Failed to run model: " (std_to_string ret)),
          mkWorld c1 (ma_engine w) (Some m') (models w),
          tr0 ++ [EvRun img]) /\
  _points c1 = _points (this w) /\ _classes c1 = _classes (this w) /\
  _boxes c1 = _boxes (this w) /\ _keypoints c1 = _keypoints (this w) /\
  _perf c1 = _perf (this w) /\
  invoke_config (_config c1) = effective_invoke_config w config.
Proof.
  intros Hchk Himg Hm Hb Hover Hrun Hret.
  destruct (invoke_outcome env mem frame config user_context w img m Hchk Himg Hm)
    as (c1' & m1' & tr0' & Hover' & H).
  rewrite Hover in Hover'. injection Hover' as <- <- <-.
  destruct (result_type_of (branch_of (Model.type m))) as [ty|] eqn:Hty.
  2:{ apply branch_default_iff in Hty. contradiction. }
  destruct (override_config_spec mem config w m)
    as (c1' & m1' & tr0' & Hover' & Hp & _ & _ & _ & _ & _ & _ & _ & Hnn & Hn).
  rewrite Hover in Hover'. injection Hover' as <- <- <-.
  split.
  - destruct H as [(ret' & mr & Hr & _ & ->) | (c2 & mr & Hr & _ & _)];
      rewrite Hrun in Hr; injection Hr as E1 E2; [now subst | contradiction].
  - destruct (Z.eq_dec config nullptr) as [E | E].
    + destruct (Hn E) as (-> & _). now repeat split.
    + destruct (Hnn E) as (-> & _). now repeat split.
Qed.

(** A detector whose run fails with code -3. *)
Lemma invoke_run_failure_witness :
  exists w',
    invoke failing_env demo_mem demo_frame nullptr 7 (demo_world MA_MODEL_TYPE_YOLOV5) =
      Some (Expected.mk false "Failed to run model: -3", w', [EvRun demo_img]).
Proof.
  assert (Hb : branch_of (Model.type (demo_model MA_MODEL_TYPE_YOLOV5)) <> DefaultBranch)
    by discriminate.
  assert (Hret : -3 <> MA_OK failing_env) by discriminate.
  destruct (invoke_run_failure failing_env demo_mem demo_frame nullptr 7
              (demo_world MA_MODEL_TYPE_YOLOV5) demo_img
              (demo_model MA_MODEL_TYPE_YOLOV5) _ _ _ (-3) _
              eq_refl eq_refl eq_refl Hb eq_refl eq_refl Hret) as [H _].
  eexists. exact H.
Defined.

Lemma std_to_string_inj (a b : Z) : std_to_string a = std_to_string b -> a = b.
Proof.
  unfold std_to_string. intros H.
  assert (Hnil : forall n, Z.to_int n <> Decimal.Pos Decimal.Nil /\
                           Z.to_int n <> Decimal.Neg Decimal.Nil).
  { intros [|p|p]; simpl; split; try discriminate; intros E; injection E;
      apply DecimalPos.Unsigned.to_uint_nonnil. }
  apply DecimalZ.to_int_inj.
  assert (Hs : Some (Z.to_int a) = Some (Z.to_int b)).
  { rewrite <- (NilZero.isi (Z.to_int a)), <- (NilZero.isi (Z.to_int b));
      try apply Hnil. now rewrite H. }
  now injection Hs.
Qed.

(** X8. The message of a failed run tells the code the run returned:
    different codes give different messages, and none of them is the message
    of one of the checks of [invoke] or the empty message of a success. *)
Theorem run_failed_code (r1 r2 : Z) :
  (run_failed r1 = run_failed r2 -> r1 = r2) /\
  Expected.message (run_failed r1) <> ""%string /\
  Expected.message (run_failed r1) <> "Not initialized"%string /\
  Expected.message (run_failed r1) <> "Invalid frame format"%string /\
  Expected.message (run_failed r1) <> "Invalid frame dimensions"%string /\
  Expected.message (run_failed r1) <> "Invalid frame size"%string /\
  Expected.message (run_failed r1) <> "Invalid frame data"%string /\
  Expected.message (run_failed r1) <> "Managed frame is null"%string.
Proof.
  split.
  - unfold run_failed, failure. intros H. injection H as H.
    now apply std_to_string_inj.
  - unfold run_failed, failure. simpl. repeat split; discriminate.
Qed.

Lemma run_failed_code_witness :
  run_failed (-3) <> run_failed 3.
Proof.
  intros H. destruct (run_failed_code (-3) 3) as [Hinj _].
  specialize (Hinj H). discriminate Hinj.
Defined.

(** ** The order of the results stored *)

Lemma StronglySorted_app_l {A : Type} (R : A -> A -> Prop) (l1 l2 : list A) :
  StronglySorted R (l1 ++ l2) -> StronglySorted R l1.
Proof.
  induction l1 as [|a l1 IH]; simpl; intros H; [constructor|].
  inversion H as [|? ? Hs Hall]; subst. constructor; [now apply IH|].
  rewrite Forall_forall in *. intros x Hx. apply Hall, in_or_app. now left.
Qed.


Lemma StronglySorted_weaken {A : Type} (R R' : A -> A -> Prop) (l : list A) :
  (forall a b, In a l -> In b l -> R a b -> R' a b) ->
  StronglySorted R l -> StronglySorted R' l.
Proof.
  induction l as [|a l IH]; intros Himp H; [constructor|].
  inversion H as [|? ? Hs Hall]; subst. constructor.
  - apply IH; [|assumption]. intros x y Hx Hy. apply Himp; now right.
  - rewrite Forall_forall in *. intros x Hx.
    apply Himp; [now left | now right | now apply Hall].
Qed.

Lemma StronglySorted_map {A B : Type} (f : A -> B) (R : B -> B -> Prop) (l : list A) :
  StronglySorted (fun a b => R (f a) (f b)) l -> StronglySorted R (map f l).
Proof.
  induction 1 as [|a l Hs IH Hall]; simpl; constructor; [assumption|].
  rewrite Forall_forall in *. intros y Hy. apply in_map_iff in Hy.
  destruct Hy as (x & <- & Hx). now apply Hall.
Qed.

(** The truncation of a vector: in decreasing score, as many elements as
    there were or [top_k] of them. *)
Lemma vector_top_k_order (env : Env) {A : Type} (score : A -> float) (k : Z)
    (results : list A) :
  std_sort_conforms env ->
  Forall (fun r => is_nan (score r) = false) results ->
  0 < k ->
  decreasing_score score (vector_top_k env score k results) /\
  List.length (vector_top_k env score k results) =
    Nat.min (List.length results) (Z.to_nat k).
Proof.
  intros Hsort Hnan Hk. unfold vector_top_k, vector_resize.
  destruct (Hsort A (fun a b => float_gt (score a) (score b)) results
              (score_gt_strict_weak score results Hnan)) as [Hperm Hsorted].
  set (sorted := std_sort env A _ results) in *.
  assert (Hin : forall x, In x sorted -> is_nan (score x) = false).
  { intros x Hx. rewrite Forall_forall in Hnan.
    apply Hnan. apply (Permutation_in _ (Permutation_sym Hperm)), Hx. }
  split.
  - unfold decreasing_score.
    apply (StronglySorted_app_l _ _ (skipn (Nat.min (List.length sorted) (Z.to_nat k)) sorted)).
    rewrite firstn_skipn.
    apply (StronglySorted_weaken (fun a b => float_gt (score b) (score a) = false));
      [|exact Hsorted].
    intros a b Ha Hb Hab. unfold float_gt in Hab. apply float_not_lt_ge; auto.
  - rewrite length_firstn, <- (Permutation_length Hperm). lia.
Qed.


(** X9. On a successful [invoke] with a non-null configuration pointer in
    effect and [top_k > 0], the points of a point detector and the key
    point sets of a pose detector are stored in decreasing score (the score
    of the box for key points), also when nothing is cut, and they are as
    many as the engine results or [top_k], whichever is less. *)
Theorem invoke_vector_order (env : Env) (mem : Memory) (frame : Frame.t) (config : ptr)
    (user_context : ptr) (w : World) (e : Expected.t) (w' : World) (tr : list event)
    (m m' : Model.t) :
  std_sort_conforms env ->
  invoke env mem frame config user_context w = Some (e, w', tr) ->
  Expected.success e = true ->
  ma_model w = Some m ->
  ma_model w' = Some m' ->
  scores_not_nan m' ->
  effective_invoke_config w config <> nullptr ->
  0 < top_k (mem (effective_invoke_config w config)) ->
  (branch_of (Model.type m) = PointsBranch ->
   decreasing_score Point.score (_points (this w')) /\
   List.length (_points (this w')) =
     Nat.min (List.length (Model.point_results m'))
             (Z.to_nat (top_k (mem (effective_invoke_config w config))))) /\
  (branch_of (Model.type m) = KeypointsBranch ->
   decreasing_score (fun kp => Box.score (Keypoints.box kp)) (_keypoints (this w')) /\
   List.length (_keypoints (this w')) =
     Nat.min (List.length (Model.keypoint_results m'))
             (Z.to_nat (top_k (mem (effective_invoke_config w config))))).
Proof.
  intros Hsort Hinv Hok Hm Hm' (Hpt & _ & _ & Hkp) Hp Hk.
  destruct (invoke_success_stored _ _ _ _ _ _ _ _ _ Hinv Hok)
    as (img & m0 & c1 & m1 & tr0 & m2 & _ & Hm0 & Hover & Hm2 & H).
  rewrite Hm in Hm0. injection Hm0 as <-.
  rewrite Hm' in Hm2. injection Hm2 as <-.
  destruct (override_config_spec mem config w m)
    as (c1' & m1' & tr0' & Hover' & Hc1 & _).
  rewrite Hover in Hover'. injection Hover' as <- <- <-.
  rewrite <- Hc1 in Hp, Hk |- *.
  pose proof (top_k_active_true mem c1 Hp Hk) as Hact.
  split; intros Hb; rewrite Hb in H; destruct H as [_ ->]; simpl; rewrite Hact.
  - destruct (vector_top_k_order env ma_point_t.score _ _ Hsort Hpt Hk) as [Hs Hl].
    split; [|now rewrite length_map].
    apply StronglySorted_map. exact Hs.
  - destruct (vector_top_k_order env (fun r => ma_bbox_t.score (ma_keypoint3f_t.box r))
                _ _ Hsort Hkp Hk) as [Hs Hl].
    split; [|now rewrite length_map].
    apply StronglySorted_map. exact Hs.
Qed.

(** A point detector with two points scoring 0.5 and 0.75 and [top_k = 1]:
    the point scoring 0.75 is stored. *)
Lemma invoke_vector_order_witness :
  exists e w' tr,
    invoke demo_env demo_mem demo_frame 64 7 (demo_world MA_MODEL_TYPE_PFLD) =
      Some (e, w', tr) /\
    decreasing_score Point.score (_points (this w')) /\
    List.length (_points (this w')) = 1%nat.
Proof.
  destruct (invoke demo_env demo_mem demo_frame 64 7 (demo_world MA_MODEL_TYPE_PFLD))
    as [[[e w'] tr]|] eqn:Hinv; [|vm_compute in Hinv; discriminate].
  destruct (ma_model w') as [m'|] eqn:Hm';
    [|vm_compute in Hinv; injection Hinv as _ <- _; discriminate].
  assert (Hfacts : Expected.success e = true /\ scores_not_nan m').
  { vm_compute in Hinv. injection Hinv as <- <- _.
    injection Hm' as <-. split; [reflexivity|].
    repeat split; repeat constructor. }
  destruct Hfacts as [Hok Hnan].
  assert (Hp : effective_invoke_config (demo_world MA_MODEL_TYPE_PFLD) 64 <> nullptr)
    by discriminate.
  assert (Hk : 0 < top_k (demo_mem (effective_invoke_config (demo_world MA_MODEL_TYPE_PFLD) 64)))
    by (simpl; lia).
  destruct (invoke_vector_order demo_env demo_mem demo_frame 64 7
              (demo_world MA_MODEL_TYPE_PFLD) e w' tr _ m'
              std_sort_demo_conforms Hinv Hok eq_refl Hm' Hnan Hp Hk) as [Hpoints _].
  destruct (Hpoints eq_refl) as [Hs Hl].
  assert (Hlen : List.length (Model.point_results m') = 2%nat).
  { vm_compute in Hinv. injection Hinv as _ <- _. now injection Hm' as <-. }
  rewrite Hlen in Hl.
  exists e, w', tr. split; [reflexivity|]. split; [exact Hs | exact Hl].
Defined.



(** ** Frames of the camera *)

Lemma fromCameraFrame_buffer (f : Frame.t) (fb : camera_fb_t.t) :
  camera_fb_t.buf fb <> nullptr ->
  fromCameraFrame f (Some fb) =
    Frame.mk (match camera_fb_t.format fb with
              | PIXFORMAT_RGB888 => kRGB888
              | PIXFORMAT_RGB565 => kRGB565
              | PIXFORMAT_GRAYSCALE => kGRAY8
              | PIXFORMAT_JPEG => kJPEG
              | _ => kUNKNOWN
              end)
      (uint16_t (camera_fb_t.width fb)) (uint16_t (camera_fb_t.height fb)) 0
      (camera_fb_t.timestamp fb) (uint32_t (camera_fb_t.len fb)) (camera_fb_t.buf fb).
Proof.
  intros Hbuf. unfold fromCameraFrame.
  apply Z.eqb_neq in Hbuf. now rewrite Hbuf.
Qed.

(** X11. [invoke] on the frame [fromCameraFrame] makes of a camera buffer
    with data, on an initialised object: a camera format other than RGB888,
    RGB565, GRAYSCALE and JPEG is answered "Invalid frame format"; else a
    width or height that is a multiple of 65536, "Invalid frame dimensions";
    else a length that is a multiple of 2^32, "Invalid frame size"; these
    calls change nothing.  Every other buffer passes the checks, never with
    "Invalid frame data", and its image has the dimensions modulo 65536,
    the buffer as data and no rotation. *)
Theorem invoke_camera_frame (env : Env) (mem : Memory) (f : Frame.t)
    (fb : camera_fb_t.t) (config : ptr) (user_context : ptr) (w : World) :
  _initialized (this w) = true ->
  camera_fb_t.buf fb <> nullptr ->
  let frame := fromCameraFrame f (Some fb) in
  (supported_pixformat (camera_fb_t.format fb) = false ->
   invoke env mem frame config user_context w =
     Some (failure "Invalid frame format", w, [])) /\
  (supported_pixformat (camera_fb_t.format fb) = true ->
   camera_fb_t.width fb mod 65536 = 0 \/ camera_fb_t.height fb mod 65536 = 0 ->
   invoke env mem frame config user_context w =
     Some (failure "Invalid frame dimensions", w, [])) /\
  (supported_pixformat (camera_fb_t.format fb) = true ->
   camera_fb_t.width fb mod 65536 <> 0 ->
   camera_fb_t.height fb mod 65536 <> 0 ->
   camera_fb_t.len fb mod 4294967296 = 0 ->
   invoke env mem frame config user_context w =
     Some (failure "Invalid frame size", w, [])) /\
  (supported_pixformat (camera_fb_t.format fb) = true ->
   camera_fb_t.width fb mod 65536 <> 0 ->
   camera_fb_t.height fb mod 65536 <> 0 ->
   camera_fb_t.len fb mod 4294967296 <> 0 ->
   first_failing_check w frame = None /\
   exists img,
     frame_to_img frame = Some img /\
     ma_img_t.width img = camera_fb_t.width fb mod 65536 /\
     ma_img_t.height img = camera_fb_t.height fb mod 65536 /\
     ma_img_t.size img = camera_fb_t.len fb mod 4294967296 /\
     ma_img_t.data img = camera_fb_t.buf fb /\
     ma_img_t.rotate img = MA_PIXEL_ROTATE_0).
Proof.
  intros Hinit Hbuf frame. subst frame.
  rewrite (fromCameraFrame_buffer f fb Hbuf).
  change (2 ^ 16) with 65536 in *. unfold uint16_t, uint32_t.
  change (2 ^ 16) with 65536. change (2 ^ 32) with 4294967296.
  split; [|split; [|split]].
  - intros Hfmt. apply invoke_rejected.
    unfold first_failing_check. rewrite Hinit. simpl.
    destruct (camera_fb_t.format fb); try discriminate; reflexivity.
  - intros Hfmt Hdim. apply invoke_rejected.
    unfold first_failing_check. rewrite Hinit. simpl.
    assert (Hz : (camera_fb_t.width fb mod 65536 =? 0)
                 || (camera_fb_t.height fb mod 65536 =? 0) = true).
    { apply orb_true_iff. destruct Hdim as [H | H]; [left | right]; now apply Z.eqb_eq. }
    rewrite Hz.
    destruct (camera_fb_t.format fb); try discriminate; reflexivity.
  - intros Hfmt Hw Hh Hlen. apply invoke_rejected.
    unfold first_failing_check. rewrite Hinit. simpl.
    apply Z.eqb_neq in Hw, Hh. apply Z.eqb_eq in Hlen. rewrite Hw, Hh, Hlen.
    destruct (camera_fb_t.format fb); try discriminate; reflexivity.
  - intros Hfmt Hw Hh Hlen.
    apply Z.eqb_neq in Hw, Hh, Hlen, Hbuf.
    split.
    + unfold first_failing_check. rewrite Hinit. simpl. rewrite Hw, Hh, Hlen, Hbuf.
      destruct (camera_fb_t.format fb); try discriminate; reflexivity.
    + unfold frame_to_img. simpl.
      destruct (camera_fb_t.format fb); try discriminate; simpl;
        eexists; (split; [reflexivity|]); simpl; repeat split; reflexivity.
Qed.

(** The buffer [demo_camera_fb], 240 by 240 in RGB565, passes the checks. *)
Lemma invoke_camera_frame_witness :
  first_failing_check (demo_world MA_MODEL_TYPE_YOLOV5)
    (fromCameraFrame empty_frame (Some demo_camera_fb)) = None /\
  exists img,
    frame_to_img (fromCameraFrame empty_frame (Some demo_camera_fb)) = Some img /\
    ma_img_t.width img = camera_fb_t.width demo_camera_fb mod 65536 /\
    ma_img_t.height img = camera_fb_t.height demo_camera_fb mod 65536 /\
    ma_img_t.size img = camera_fb_t.len demo_camera_fb mod 4294967296 /\
    ma_img_t.data img = camera_fb_t.buf demo_camera_fb /\
    ma_img_t.rotate img = MA_PIXEL_ROTATE_0.
Proof.
  assert (Hinit : _initialized (this (demo_world MA_MODEL_TYPE_YOLOV5)) = true)
    by reflexivity.
  assert (Hbuf : camera_fb_t.buf demo_camera_fb <> nullptr) by discriminate.
  destruct (invoke_camera_frame demo_env demo_mem empty_frame demo_camera_fb 0 0
              (demo_world MA_MODEL_TYPE_YOLOV5) Hinit Hbuf) as (_ & _ & _ & H).
  apply H; [reflexivity | discriminate | discriminate | discriminate].
Defined.

(** X12. One pass of the sketch's [loop]: when the driver has no buffer, or
    one without data, the call is answered "Managed frame is null", nothing
    changes and nothing is given back to the driver, not even the buffer
    without data; otherwise the result is that of [invoke] without
    configuration on the frame of that buffer, whatever the uninitialised
    local of [fromCameraFrame] held, and the buffer is given back to the
    driver exactly once. *)
Theorem loop_outcome {camera_config_t : Type} (env : Env) (mem : Memory)
    (uninit : Frame.t) (cam : Camera camera_config_t) (w : World) :
  has_model w ->
  (esp_camera_fb_get cam = None ->
   loop env mem uninit cam w = Some (failure "Managed frame is null", w, [], [])) /\
  (forall fb,
     esp_camera_fb_get cam = Some fb ->
     camera_fb_t.buf fb = nullptr ->
     loop env mem uninit cam w = Some (failure "Managed frame is null", w, [], [])) /\
  (forall fb,
     esp_camera_fb_get cam = Some fb ->
     camera_fb_t.buf fb <> nullptr ->
     exists e w' tr,
       (forall f, invoke env mem (fromCameraFrame f (Some fb)) nullptr nullptr w =
                    Some (e, w', tr)) /\
       loop env mem uninit cam w = Some (e, w', tr, [CamFbReturn fb])).
Proof.
  intros Hw. unfold loop, getManagedFrame. split; [|split].
  - intros ->. reflexivity.
  - intros fb -> Hbuf. apply Z.eqb_eq in Hbuf. now rewrite Hbuf.
  - intros fb -> Hbuf.
    pose proof (fromCameraFrame_buffer uninit fb Hbuf) as Hu.
    apply Z.eqb_neq in Hbuf as Hbufb. rewrite Hbufb.
    cbn [option_map managed_frame invoke_managed release managed_buffer].
    pose proof (invoke_defined env mem (fromCameraFrame uninit (Some fb))
                  nullptr nullptr w Hw) as Hdef.
    destruct (invoke env mem (fromCameraFrame uninit (Some fb)) nullptr nullptr w)
      as [[[e w'] tr]|] eqn:Hinv; [|contradiction].
    exists e, w', tr. split; [|reflexivity].
    intros f. rewrite (fromCameraFrame_buffer f fb Hbuf), <- Hu. exact Hinv.
Qed.

(** The camera that hands out [demo_camera_fb], in front of a detector. *)
Lemma loop_outcome_witness :
  exists e w' tr,
    (forall f, invoke demo_env demo_mem (fromCameraFrame f (Some demo_camera_fb))
                 nullptr nullptr (demo_world MA_MODEL_TYPE_YOLOV5) = Some (e, w', tr)) /\
    loop demo_env demo_mem empty_frame demo_camera (demo_world MA_MODEL_TYPE_YOLOV5) =
      Some (e, w', tr, [CamFbReturn demo_camera_fb]).
Proof.
  assert (Hw : has_model (demo_world MA_MODEL_TYPE_YOLOV5)) by (intros _; discriminate).
  destruct (loop_outcome demo_env demo_mem empty_frame demo_camera
              (demo_world MA_MODEL_TYPE_YOLOV5) Hw) as (_ & _ & H).
  apply (H demo_camera_fb); [reflexivity | discriminate].
Defined.

(** X13. [VideoCapture::begin] with a configuration succeeds exactly when
    the driver initialises with [ESP_OK] and then has a sensor; only then
    are the flip and the mirror of that sensor switched on, in this order,
    and the sensor kept.  A failed initialisation leaves the sensor kept
    before as it was and its message tells the code; a missing sensor
    clears it. *)
Theorem VideoCapture_begin_outcome {camera_config_t : Type} (env : Env)
    (cam : Camera camera_config_t) (config : camera_config_t) (sensor0 : option Z)
    (e : Expected.t) (sensor1 : option Z) (tr : list camera_event) :
  VideoCapture_begin env cam config sensor0 = (e, sensor1, tr) ->
  (Expected.success e = true <->
   esp_camera_init cam config = ESP_OK env /\ esp_camera_sensor_get cam <> None) /\
  (Expected.success e = true ->
   exists sensor,
     esp_camera_sensor_get cam = Some sensor /\ sensor1 = Some sensor /\
     tr = [CamSetVflip sensor 1; CamSetHmirror sensor 1]) /\
  (Expected.success e = false -> tr = []) /\
  (esp_camera_init cam config <> ESP_OK env ->
   sensor1 = sensor0 /\
   forall (cam' : Camera camera_config_t) config' sensor0',
     fst (fst (VideoCapture_begin env cam' config' sensor0')) = e ->
     esp_camera_init cam' config' = esp_camera_init cam config) /\
  (esp_camera_init cam config = ESP_OK env -> esp_camera_sensor_get cam = None ->
   sensor1 = None /\ e = failure "Camera sensor not found").
Proof.
  unfold VideoCapture_begin. intros H.
  destruct (esp_camera_init cam config =? ESP_OK env) eqn:Hec; simpl in H.
  - apply Z.eqb_eq in Hec.
    destruct (esp_camera_sensor_get cam) as [sensor|] eqn:Hs;
      injection H as <- <- <-; simpl.
    + split; [|split; [|split; [|split]]].
      * split; [intros _; split; [assumption | discriminate] | reflexivity].
      * intros _. now exists sensor.
      * discriminate.
      * intros Hne. contradiction.
      * discriminate.
    + split; [|split; [|split; [|split]]].
      * split; [discriminate | intros [_ Hne]; contradiction].
      * discriminate.
      * reflexivity.
      * intros Hne. contradiction.
      * intros _ _. now split.
  - apply Z.eqb_neq in Hec. injection H as <- <- <-. simpl.
    split; [|split; [|split; [|split]]].
    + split; [discriminate | intros [Heq _]; contradiction].
    + discriminate.
    + reflexivity.
    + intros _. split; [reflexivity|].
      intros cam' config' sensor0'.
      destruct (esp_camera_init cam' config' =? ESP_OK env); simpl.
      * destruct (esp_camera_sensor_get cam'); simpl; discriminate.
      * unfold failure. intros Heq. injection Heq as Heq.
        now apply std_to_string_inj.
    + intros Heq. contradiction.
Qed.

(** The driver of [demo_camera] initialises and has the sensor 9. *)
Lemma VideoCapture_begin_outcome_witness :
  exists sensor,
    esp_camera_sensor_get demo_camera = Some sensor /\ Some 9 = Some sensor /\
    [CamSetVflip 9 1; CamSetHmirror 9 1] =
      [CamSetVflip sensor 1; CamSetHmirror sensor 1].
Proof.
  destruct (VideoCapture_begin_outcome demo_env demo_camera tt None
              (Expected.mk true "") (Some 9) [CamSetVflip 9 1; CamSetHmirror 9 1]
              eq_refl) as (_ & H & _).
  apply H. reflexivity.
Defined.

(** ** Key points *)

Lemma keypoint_points_spec (pts : list ma_pt3f_t.t) (i : Z) :
  map Point.target (keypoint_points i pts) =
    map (fun k => i + Z.of_nat k) (seq 0 (List.length pts)) /\
  map (fun p => (Point.x p, Point.y p, Point.z p)) (keypoint_points i pts) =
    map (fun p => (ma_pt3f_t.x p, ma_pt3f_t.y p, ma_pt3f_t.z p)) pts /\
  Forall (fun p => Point.score p = float_zero) (keypoint_points i pts).
Proof.
  revert i. induction pts as [|pt pts IH]; intros i; cbn [keypoint_points].
  - repeat split. constructor.
  - destruct (IH (i + 1)) as (Ht & Hc & Hs).
    cbn [List.length seq map Point.target Point.x Point.y Point.z]. split; [|split].
    + f_equal; [simpl; lia|].
      rewrite Ht, <- seq_shift, map_map. apply map_ext.
      intros k. rewrite Nat2Z.inj_succ. lia.
    + now rewrite Hc.
    + constructor; [reflexivity | assumption].
Qed.

(** X14. On a successful [invoke] of a pose detector every key point set
    stored is made of one of the engine results: its box is the box of that
    result, its points have the coordinates of the points of that result in
    their order, the targets 0, 1, 2, ... and the score 0.  (The running
    index is a [size_t] stored in an [int]: results with fewer than 2^31
    points.) *)
Theorem invoke_keypoint_numbering (env : Env) (mem : Memory) (frame : Frame.t)
    (config : ptr) (user_context : ptr) (w : World) (e : Expected.t) (w' : World)
    (tr : list event) (m m' : Model.t) :
  std_sort_conforms env ->
  invoke env mem frame config user_context w = Some (e, w', tr) ->
  Expected.success e = true ->
  ma_model w = Some m ->
  ma_model w' = Some m' ->
  scores_not_nan m' ->
  Forall (fun r => Z.of_nat (List.length (ma_keypoint3f_t.pts r)) < 2 ^ 31)
         (Model.keypoint_results m') ->
  branch_of (Model.type m) = KeypointsBranch ->
  exists retained,
    incl retained (Model.keypoint_results m') /\
    Forall2
      (fun r kp =>
         Keypoints.box kp = box_of_result (ma_keypoint3f_t.box r) /\
         map Point.target (Keypoints.points kp) =
           map Z.of_nat (seq 0 (List.length (ma_keypoint3f_t.pts r))) /\
         map (fun p => (Point.x p, Point.y p, Point.z p)) (Keypoints.points kp) =
           map (fun p => (ma_pt3f_t.x p, ma_pt3f_t.y p, ma_pt3f_t.z p))
               (ma_keypoint3f_t.pts r) /\
         Forall (fun p => Point.score p = float_zero) (Keypoints.points kp))
      retained (_keypoints (this w')).
Proof.
  intros Hsort Hinv Hok Hm Hm' (_ & _ & _ & Hnan) _ Hb.
  destruct (invoke_success_stored _ _ _ _ _ _ _ _ _ Hinv Hok)
    as (img & m0 & c1 & m1 & tr0 & m2 & _ & Hm0 & Hover & Hm2 & H).
  rewrite Hm in Hm0. injection Hm0 as <-.
  rewrite Hm' in Hm2. injection Hm2 as <-.
  rewrite Hb in H. destruct H as [_ ->]. simpl.
  match goal with
  | |- context [map keypoints_of_result ?l] => set (retained := l)
  end.
  exists retained. split.
  - subst retained. destruct (top_k_active mem c1); [|apply incl_refl].
    unfold vector_top_k, vector_resize.
    assert (Hswo := score_gt_strict_weak
                      (fun r => ma_bbox_t.score (ma_keypoint3f_t.box r)) _ Hnan).
    destruct (Hsort _ _ _ Hswo) as [Hperm _].
    intros x Hx. apply in_firstn in Hx.
    apply (Permutation_in _ (Permutation_sym Hperm)), Hx.
  - clearbody retained. induction retained as [|r rest IH]; simpl; constructor;
      [|exact IH].
    destruct (keypoint_points_spec (ma_keypoint3f_t.pts r) 0) as (Ht & Hc & Hs).
    unfold keypoints_of_result. simpl. repeat split; assumption.
Qed.

(** The pose detector of [demo_env]. *)
Lemma invoke_keypoint_numbering_witness :
  exists e w' tr m',
    invoke demo_env demo_mem demo_frame 64 7 (demo_world MA_MODEL_TYPE_YOLOV8_POSE) =
      Some (e, w', tr) /\
    exists retained,
      incl retained (Model.keypoint_results m') /\
      Forall2
        (fun r kp =>
           Keypoints.box kp = box_of_result (ma_keypoint3f_t.box r) /\
           map Point.target (Keypoints.points kp) =
             map Z.of_nat (seq 0 (List.length (ma_keypoint3f_t.pts r))) /\
           map (fun p => (Point.x p, Point.y p, Point.z p)) (Keypoints.points kp) =
             map (fun p => (ma_pt3f_t.x p, ma_pt3f_t.y p, ma_pt3f_t.z p))
                 (ma_keypoint3f_t.pts r) /\
           Forall (fun p => Point.score p = float_zero) (Keypoints.points kp))
        retained (_keypoints (this w')).
Proof.
  destruct (invoke demo_env demo_mem demo_frame 64 7 (demo_world MA_MODEL_TYPE_YOLOV8_POSE))
    as [[[e w'] tr]|] eqn:Hinv; [|vm_compute in Hinv; discriminate].
  destruct (ma_model w') as [m'|] eqn:Hm';
    [|vm_compute in Hinv; injection Hinv as _ <- _; discriminate].
  assert (Hfacts : Expected.success e = true /\ scores_not_nan m' /\
                   Forall (fun r => Z.of_nat (List.length (ma_keypoint3f_t.pts r)) < 2 ^ 31)
                          (Model.keypoint_results m')).
  { vm_compute in Hinv. injection Hinv as <- <- _.
    injection Hm' as <-. split; [reflexivity|]. split.
    - repeat split; repeat constructor.
    - repeat constructor. }
  destruct Hfacts as (Hok & Hnan & Hlen).
  exists e, w', tr, m'. split; [reflexivity|].
  exact (invoke_keypoint_numbering demo_env demo_mem demo_frame 64 7
           (demo_world MA_MODEL_TYPE_YOLOV8_POSE) e w' tr _ m'
           std_sort_demo_conforms Hinv Hok eq_refl Hm' Hnan Hlen eq_refl).
Defined.

(** ** Registered callbacks only observe *)

Lemma override_without_callbacks (mem : Memory) (config : ptr) (c : SSCMAMicroCore)
    (m : Model.t) :
  override_config mem config (without_callbacks c) m =
    let '(c1, m1, tr0) := override_config mem config c m in
    (without_callbacks c1, m1, tr0).
Proof.
  unfold override_config. destruct (negb (config =? nullptr)); reflexivity.
Qed.

Lemma dispatch_without_callbacks (env : Env) (mem : Memory) (img : ma_img_t.t) (u : ptr)
    (c : SSCMAMicroCore) (m : Model.t) :
  dispatch env mem img u (without_callbacks c) m =
    match dispatch env mem img u c m with
    | Return e c' m' tr =>
        Return e (without_callbacks c') m'
          (filter (fun ev => negb (is_result_callback ev || is_perf_callback ev)) tr)
    | Break c' m' tr =>
        Break (without_callbacks c') m'
          (filter (fun ev => negb (is_result_callback ev || is_perf_callback ev)) tr)
    end.
Proof.
  unfold dispatch.
  destruct (Model.type m); try reflexivity;
    unfold points_branch, classes_branch, boxes_branch, keypoints_branch;
    destruct (Model_run env m img) as [ret m'];
    destruct (negb (ret =? MA_OK env)); try reflexivity;
    destruct c as [i cfg [b|] [cl|] [p|] [k|] [pf|] bs cs ps ks pr]; reflexivity.
Qed.

Lemma filter_set_config_kept (l : list event) :
  Forall (fun ev => is_set_config ev = true) l ->
  filter (fun ev => negb (is_result_callback ev || is_perf_callback ev)) l = l.
Proof.
  induction 1 as [|ev l Hev _ IH]; [reflexivity|].
  destruct ev; try discriminate. simpl. now rewrite IH.
Qed.

(** X15. What [invoke] returns, stores and asks of the model does not depend
    on the callbacks registered: without them the call returns the same
    [Expected], leaves the same object, model and statics, and makes the same
    calls of [setConfig] and [run] in the same order; the trace only loses
    the calls of the callbacks. *)
Theorem invoke_without_callbacks (env : Env) (mem : Memory) (frame : Frame.t)
    (config : ptr) (user_context : ptr) (w : World) (e : Expected.t) (w' : World)
    (tr : list event) :
  invoke env mem frame config user_context w = Some (e, w', tr) ->
  invoke env mem frame config user_context (world_without_callbacks w) =
    Some (e, world_without_callbacks w',
          filter (fun ev => negb (is_result_callback ev || is_perf_callback ev)) tr).
Proof.
  intros Hinv.
  assert (Hsame : first_failing_check (world_without_callbacks w) frame =
                  first_failing_check w frame) by reflexivity.
  destruct (first_failing_check w frame) as [msg|] eqn:Hchk.
  { rewrite (invoke_rejected _ _ _ _ _ _ _ Hchk) in Hinv.
    injection Hinv as <- <- <-. now apply invoke_rejected. }
  destruct (frame_to_img frame) as [img|] eqn:Himg.
  2:{ rewrite (invoke_unconverted _ _ _ _ _ _ Hchk Himg) in Hinv.
      injection Hinv as <- <- <-. now apply invoke_unconverted. }
  destruct (ma_model w) as [m|] eqn:Hm.
  2:{ unfold first_failing_check, invoke in *.
      destruct (negb (_initialized (this w))); [discriminate|].
      destruct (Frame.format frame =? kUNKNOWN); [discriminate|].
      destruct ((Frame.width frame =? 0) || (Frame.height frame =? 0)); [discriminate|].
      destruct (Frame.size frame =? 0); [discriminate|].
      destruct (Frame.data frame =? nullptr); [discriminate|].
      rewrite Himg, Hm in Hinv. discriminate. }
  rewrite (invoke_accepted _ _ _ _ _ _ _ _ Hchk Himg Hm) in Hinv.
  rewrite (invoke_accepted env mem frame config user_context (world_without_callbacks w)
             img m Hsame Himg Hm).
  change (this (world_without_callbacks w)) with (without_callbacks (this w)).
  rewrite override_without_callbacks.
  pose proof (override_config_trace mem config (this w) m) as Htr0.
  destruct (override_config mem config (this w) m) as [[c1 m1] tr0].
  simpl in Htr0. rewrite dispatch_without_callbacks.
  destruct (dispatch env mem img user_context c1 m1) as [e1 c2 m2 tr1 | c2 m2 tr1];
    injection Hinv as <- <- <-.
  - rewrite filter_app, (filter_set_config_kept _ Htr0). reflexivity.
  - rewrite !filter_app, (filter_set_config_kept _ Htr0).
    assert (Hperf : forall cb perf,
              filter (fun ev => negb (is_result_callback ev || is_perf_callback ev))
                     (called cb EvPerfCallback perf user_context) = []).
    { intros [cb|] perf; reflexivity. }
    rewrite Hperf, app_nil_r. cbv zeta.
    change (called (_perf_callback (without_callbacks c2)) EvPerfCallback
              (perf_of_log (Model.perf m2)) user_context) with (@nil event).
    rewrite app_nil_r. reflexivity.
Qed.

(** The detector of [demo_world], with its five callbacks registered. *)
Lemma invoke_without_callbacks_witness :
  exists e w' tr,
    invoke demo_env demo_mem demo_frame 64 7 (demo_world MA_MODEL_TYPE_YOLOV5) =
      Some (e, w', tr) /\
    invoke demo_env demo_mem demo_frame 64 7
      (world_without_callbacks (demo_world MA_MODEL_TYPE_YOLOV5)) =
      Some (e, world_without_callbacks w',
            filter (fun ev => negb (is_result_callback ev || is_perf_callback ev)) tr).
Proof.
  destruct (invoke demo_env demo_mem demo_frame 64 7 (demo_world MA_MODEL_TYPE_YOLOV5))
    as [[[e w'] tr]|] eqn:Hinv; [|vm_compute in Hinv; discriminate].
  exists e, w', tr. split; [reflexivity|].
  exact (invoke_without_callbacks demo_env demo_mem demo_frame 64 7
           (demo_world MA_MODEL_TYPE_YOLOV5) e w' tr Hinv).
Defined.

(** ** From [begin] to [invoke] *)

Lemma invoke_all_total (env : Env) (mem : Memory) (calls : list (Frame.t * ptr))
    (w : World) :
  has_model w ->
  exists w' tr,
    invoke_all env mem calls w = Some (w', tr) /\
    _config (this w') = _config (this w) /\
    _initialized (this w') = _initialized (this w) /\
    Forall (fun ev => is_set_config ev = false) tr.
Proof.
  revert w. induction calls as [|[frame u] calls IH]; intros w Hw; simpl.
  - exists w, []. repeat split. constructor.
  - pose proof (invoke_defined env mem frame nullptr u w Hw) as Hdef.
    destruct (invoke env mem frame nullptr u w) as [[[e w1] tr1]|] eqn:Hinv;
      [|contradiction].
    assert (Hw1 : has_model w1).
    { apply (call_has_model env w w1); [|assumption].
      exact (call_invoke env mem frame nullptr u w e w1 tr1 Hinv). }
    destruct (IH w1 Hw1) as (w2 & tr2 & -> & Hcfg2 & Hinit2 & Hev2).
    destruct (invoke_config_frame _ _ _ _ _ _ _ _ _ Hinv) as (_ & _ & H).
    destruct (H eq_refl) as [Hcfg Hev].
    destruct (invoke_world _ _ _ _ _ _ _ _ _ Hinv) as (Hinit & _).
    exists w2, (tr1 ++ tr2). split; [reflexivity|].
    split; [congruence|]. split; [congruence|].
    apply Forall_app. now split.
Qed.

(** X16. After a successful [begin] any run of calls of [invoke] without an
    explicit configuration returns; throughout, the configuration stored is
    the argument of that [begin], so the pointer in effect at the next call
    is its [invoke_config], and the object stays initialised; none of these
    calls sets a threshold on the model. *)
Theorem begin_config_governs (env : Env) (mem : Memory) (config : Config) (w : World)
    (e : Expected.t) (w1 : World) (tr1 : list event) :
  begin env mem config w = (e, w1, tr1) ->
  Expected.success e = true ->
  forall mem' calls,
  exists w2 tr2,
    invoke_all env mem' calls w1 = Some (w2, tr2) /\
    _config (this w2) = config /\
    _initialized (this w2) = true /\
    effective_invoke_config w2 nullptr = invoke_config config /\
    Forall (fun ev => is_set_config ev = false) tr2.
Proof.
  intros Hb Hok mem' calls.
  destruct (begin_world _ _ _ _ _ _ _ Hb) as (Hsucc & _).
  destruct (Hsucc Hok) as (Hinit & Hm & _).
  assert (Hcfg : _config (this w1) = config).
  { destruct (begin_outcome _ _ _ _ _ _ _ Hb)
      as [(_ & Hf & _) | [(_ & _ & Hf & _) | (m & _ & _ & _ & Hthis & _)]];
      try (rewrite Hf in Hok; discriminate).
    now rewrite Hthis. }
  destruct (invoke_all_total env mem' calls w1) as (w2 & tr2 & Hall & Hc & Hi & Hev).
  { intros _. exact Hm. }
  exists w2, tr2. split; [assumption|].
  split; [congruence|]. split; [congruence|]. split; [|assumption].
  unfold effective_invoke_config. simpl. congruence.
Qed.

(** [begin] on the fresh object with the default configuration, then
    two calls of [invoke] on [demo_frame]. *)
Lemma begin_config_governs_witness :
  exists w1 w2 tr2,
    fst (fst (begin demo_env demo_mem demo_config fresh_world)) = Expected.mk true "" /\
    snd (fst (begin demo_env demo_mem demo_config fresh_world)) = w1 /\
    invoke_all demo_env demo_mem [(demo_frame, 7); (demo_frame, 8)] w1 = Some (w2, tr2) /\
    _config (this w2) = demo_config /\
    _initialized (this w2) = true /\
    effective_invoke_config w2 nullptr = invoke_config demo_config /\
    Forall (fun ev => is_set_config ev = false) tr2.
Proof.
  destruct (begin demo_env demo_mem demo_config fresh_world) as [[e w1] tr1] eqn:Hb.
  assert (He : e = Expected.mk true "").
  { vm_compute in Hb. now injection Hb as <- _ _. }
  assert (Hok : Expected.success e = true) by now rewrite He.
  destruct (begin_config_governs demo_env demo_mem demo_config fresh_world e w1 tr1
              Hb Hok demo_mem [(demo_frame, 7); (demo_frame, 8)]) as (w2 & tr2 & H).
  exists w1, w2, tr2. split; [exact He|]. split; [reflexivity | exact H].
Defined.

(** ** [begin] called again *)

Lemma begin_scanned (env : Env) (mem : Memory) (config : Config) (w : World)
    (partition : esp_partition_t) (e : Expected.t) (w' : World) (tr : list event) :
  _initialized (this w) = false ->
  engine_init env = MA_OK env ->
  find_partition env = Some partition ->
  spi_flash_mmap env = ESP_OK env ->
  begin env mem config w = (e, w', tr) ->
  models w' =
    models w ++ scan_models env (scan_iterations (part_size partition)) 0 0 [] /\
  ma_engine w' = true /\
  (Expected.success e = false -> _initialized (this w') = false).
Proof.
  intros Hinit Heng Hpart Hmap Hb. unfold begin in Hb.
  rewrite Hinit, Heng, Hpart, Hmap, !Z.eqb_refl in Hb. simpl in Hb.
  rewrite scan_models_app in Hb.
  destruct (find_model env config _) as [it|].
  2:{ injection Hb as <- <- <-. now repeat split. }
  destruct (negb (engine_load env (ma_model_t.addr it) =? MA_OK env)).
  { injection Hb as <- <- <-. now repeat split. }
  destruct (ModelFactory_create env (factory_id (this w))) as [m|].
  2:{ injection Hb as <- <- <-. now repeat split. }
  destruct (negb (invoke_config config =? nullptr)); simpl in Hb;
    injection Hb as <- <- <-; repeat split; discriminate.
Qed.

(** X17. A [begin] that fails after the engine is up and the partition is
    mapped leaves the engine set and the entries of its scan in [models],
    and does not mark the object initialised; a second [begin] is then not
    refused, scans again and appends the same entries a second time behind
    the first ones. *)
Theorem begin_rescans (env : Env) (mem mem2 : Memory) (config config2 : Config)
    (w : World) (partition : esp_partition_t)
    (e1 : Expected.t) (w1 : World) (tr1 : list event)
    (e2 : Expected.t) (w2 : World) (tr2 : list event) :
  _initialized (this w) = false ->
  engine_init env = MA_OK env ->
  find_partition env = Some partition ->
  spi_flash_mmap env = ESP_OK env ->
  begin env mem config w = (e1, w1, tr1) ->
  Expected.success e1 = false ->
  begin env mem2 config2 w1 = (e2, w2, tr2) ->
  let entries := scan_models env (scan_iterations (part_size partition)) 0 0 [] in
  models w1 = models w ++ entries /\
  ma_engine w1 = true /\
  models w2 = (models w ++ entries) ++ entries /\
  Expected.message e2 <> "Already initialized"%string.
Proof.
  intros Hinit Heng Hpart Hmap Hb1 Hfail Hb2 entries.
  destruct (begin_scanned _ _ _ _ _ _ _ _ Hinit Heng Hpart Hmap Hb1)
    as (Hm1 & He1 & Hi1).
  specialize (Hi1 Hfail).
  destruct (begin_scanned _ _ _ _ _ _ _ _ Hi1 Heng Hpart Hmap Hb2) as (Hm2 & _ & _).
  split; [assumption|]. split; [assumption|]. split; [now rewrite Hm2, Hm1|].
  unfold begin in Hb2. rewrite Hi1, Heng, Hpart, Hmap, !Z.eqb_refl in Hb2.
  simpl in Hb2.
  destruct (find_model env config2 _) as [it|].
  2:{ injection Hb2 as <- _ _. discriminate. }
  destruct (negb (engine_load env (ma_model_t.addr it) =? MA_OK env)).
  { injection Hb2 as <- _ _. discriminate. }
  destruct (ModelFactory_create env (factory_id (this w1))) as [m|].
  2:{ injection Hb2 as <- _ _. discriminate. }
  destruct (negb (invoke_config config2 =? nullptr)); simpl in Hb2;
    injection Hb2 as <- _ _; discriminate.
Qed.

(** On the flash of [demo_env] a [begin] asking for the model type 5 finds
    no model; the [begin] after it finds the entries of the scan twice. *)
Lemma begin_rescans_witness :
  exists partition w1 w2,
    find_partition demo_env = Some partition /\
    models w1 = scan_models demo_env (scan_iterations (part_size partition)) 0 0 [] /\
    models w2 = models w1 ++ models w1 /\
    models w1 <> [].
Proof.
  destruct (find_partition demo_env) as [partition|] eqn:Hpart;
    [|vm_compute in Hpart; discriminate].
  destruct (begin demo_env demo_mem (mkConfig 5 0 nullptr) fresh_world)
    as [[e1 w1] tr1] eqn:Hb1.
  destruct (begin demo_env demo_mem demo_config w1) as [[e2 w2] tr2] eqn:Hb2.
  assert (Hfail : Expected.success e1 = false).
  { vm_compute in Hb1. now injection Hb1 as <- _ _. }
  destruct (begin_rescans demo_env demo_mem demo_mem (mkConfig 5 0 nullptr) demo_config
              fresh_world partition e1 w1 tr1 e2 w2 tr2
              eq_refl eq_refl Hpart eq_refl Hb1 Hfail Hb2) as (H1 & _ & H2 & _).
  exists partition, w1, w2. split; [reflexivity|].
  simpl in H1, H2. split; [exact H1|]. split; [now rewrite H2, H1|].
  rewrite H1. vm_compute in Hpart. injection Hpart as <-.
  vm_compute. discriminate.
Defined.

(** ** The time of the image *)

(** X18. The timestamp of the image is the time of the frame in whole
    milliseconds, rounded down, and later frames never get an earlier
    timestamp: for times in normal form whose milliseconds fit [time_t]. *)
Theorem img_timestamp_monotone (frame1 frame2 : Frame.t) (img1 img2 : ma_img_t.t) :
  frame_to_img frame1 = Some img1 ->
  frame_to_img frame2 = Some img2 ->
  normalised (Frame.timestamp frame1) -> millis_fit (Frame.timestamp frame1) ->
  normalised (Frame.timestamp frame2) -> millis_fit (Frame.timestamp frame2) ->
  (ma_img_t.timestamp img1 * 1000
     <= tv_sec (Frame.timestamp frame1) * 1000000 + tv_usec (Frame.timestamp frame1)
     < ma_img_t.timestamp img1 * 1000 + 1000) /\
  (timeval_le (Frame.timestamp frame1) (Frame.timestamp frame2) ->
   ma_img_t.timestamp img1 <= ma_img_t.timestamp img2).
Proof.
  unfold frame_to_img, normalised, millis_fit, timeval_le.
  intros H1 H2 Hn1 _ Hn2 _.
  destruct (img_format (Frame.format frame1)); [|discriminate].
  destruct (img_format (Frame.format frame2)); [|discriminate].
  injection H1 as <-. injection H2 as <-. simpl.
  destruct (Frame.timestamp frame1) as [s1 u1], (Frame.timestamp frame2) as [s2 u2].
  simpl in *.
  rewrite !Z.quot_div_nonneg by lia.
  pose proof (Z.div_mod u1 1000 ltac:(lia)) as E1.
  pose proof (Z.mod_pos_bound u1 1000 ltac:(lia)) as B1.
  pose proof (Z.div_mod u2 1000 ltac:(lia)) as E2.
  pose proof (Z.mod_pos_bound u2 1000 ltac:(lia)) as B2.
  split; [lia|]. intros [Hlt | [-> Hle]].
  - lia.
  - pose proof (Z.div_le_mono u1 u2 1000 ltac:(lia) Hle). lia.
Qed.

(** Two frames taken 0.3 ms apart get the same timestamp, 12345. *)
Lemma img_timestamp_monotone_witness :
  ma_img_t.timestamp demo_img <= 12345.
Proof.
  destruct (img_timestamp_monotone demo_frame
              (Frame.mk kRGB565 240 240 90 (mkTimeval 12 345999) 115200 4096)
              demo_img
              {| ma_img_t.width := 240; ma_img_t.height := 240;
                 ma_img_t.format := MA_PIXEL_FORMAT_RGB565;
                 ma_img_t.rotate := MA_PIXEL_ROTATE_90;
                 ma_img_t.timestamp := 12345;
                 ma_img_t.size := 115200; ma_img_t.data := 4096 |}
              eq_refl eq_refl) as [_ H].
  - unfold normalised. simpl. lia.
  - unfold millis_fit. simpl. lia.
  - unfold normalised. simpl. lia.
  - unfold millis_fit. simpl. lia.
  - apply H. right. simpl. lia.
Defined.
